(** * ContentSlotRepository: a shallow embedding and its properties

    The repository class of [src/persistence/repositories/ContentSlotRepository.js]
    stores content slots in one table and their options in a second one.
    Every public method acquires a pooled connection, issues SQL statements
    with [await conn.query(...)] and releases the connection in a [finally]
    block.

    The embedding has three layers:
    - the storage engine: two tables as lists of rows and the meaning of the
      ten statements the repository issues ([exec]);
    - the world the methods run in: database, pool counters, the log of
      issued statements and a schedule of injected storage failures;
    - the methods themselves, written in a state-and-exception monad whose
      [try_catch] and [try_finally] follow JavaScript's. *)

From stdpp Require Import gmap strings list fin_maps.

Local Open Scope Z_scope.

(** ** Rows, statements and results *)

(** A row of [<prefix>contentslots]. *)
Record SlotRow := mkSlotRow {
  row_id : Z;
  view_id : Z;
  component_type : string;
  column_start : Z;
  row_start : Z;
  column_end : Z;
  row_end : Z
}.

(** A row of [<prefix>contentslot_options]. *)
Record OptionRow := mkOptionRow {
  contentslot_id : Z;
  name : string;
  value : string
}.

(** The object built by [rowToObject]. [options] is a plain JS object used
    as a string-keyed map. *)
Record ContentSlot := mkContentSlot {
  id : Z;
  componentType : string;
  viewId : Z;
  columnStart : Z;
  rowStart : Z;
  columnEnd : Z;
  rowEnd : Z;
  options : gmap string string
}.

(** The statements of the class, one constructor per SQL template, with the
    positional parameters in the order the source binds them. *)
Inductive Stmt :=
| INSERT_slot (viewId : Z) (componentType : string)
              (columnStart rowStart columnEnd rowEnd : Z)
| DELETE_slot (id : Z)
| SELECT_slots_by_view (viewId : Z)
| SELECT_slots_by_component (componentType : string)
| UPDATE_slot (viewId : Z) (componentType : string)
              (columnStart rowStart columnEnd rowEnd id : Z)
| SELECT_options (id : Z)
| SELECT_options_in (ids : list Z)
| DELETE_option (id : Z) (key : string)
| UPDATE_option (val : string) (id : Z) (key : string)
| INSERT_option (id : Z) (key val : string).

(** The packet a data-changing statement answers with. *)
Record OkPacket := mkOk { affectedRows : Z; insertId : Z }.

(** What [conn.query] resolves to, by statement. *)
Definition res_ty (s : Stmt) : Type :=
  match s with
  | SELECT_slots_by_view _ | SELECT_slots_by_component _ => list SlotRow
  | SELECT_options _ | SELECT_options_in _ => list OptionRow
  | _ => OkPacket
  end.

(** ** Exceptions and the monad *)

(** The error object of the storage driver: [e.errno] and [e.code]. *)
Record SqlError := mkSqlError { errno : Z; code : string }.

(** What a method can throw. [Storage] is the driver's own exception, with
    its [errno] and [code]. [DuplicateEntryError] is the class required from
    [errors/DuplicateEntryError], kept as a constructor holding the argument
    it is built with. [Error] is JavaScript's generic [Error], which the
    spec calls StorageError. [TypeError] is a member access on [undefined].
    A message is [None] when the source passes [undefined]. *)
Inductive Exn :=
| Storage (e : SqlError)
| DuplicateEntryError (message : option string)
| Error (message : option string)
| TypeError.

Definition exn_errno (e : Exn) : option Z :=
  match e with Storage s => Some (errno s) | _ => None end.

Definition exn_code (e : Exn) : option string :=
  match e with Storage s => Some (code s) | _ => None end.

Inductive Outcome (A : Type) :=
| Return (a : A)
| Throw (e : Exn).
Arguments Return {A} a.
Arguments Throw {A} e.

(** A computation over a state [S]: it ends by returning or by throwing, and
    the state survives both. *)
Definition M (S A : Type) : Type := S → Outcome A * S.

Definition ret {S A} (a : A) : M S A := λ s, (Return a, s).

Definition throw {S A} (e : Exn) : M S A := λ s, (Throw e, s).

Definition bind {S A B} (m : M S A) (k : A → M S B) : M S B :=
  λ s, match m s with
       | (Return a, s1) => k a s1
       | (Throw e, s1) => (Throw e, s1)
       end.

#[global] Instance M_ret {S} : MRet (M S) := @ret S.
#[global] Instance M_bind {S} : MBind (M S) := λ A B k m, bind m k.

(** [try { body } catch (e) { handler e }] *)
Definition try_catch {S A} (body : M S A) (handler : Exn → M S A) : M S A :=
  λ s, match body s with
       | (Return a, s1) => (Return a, s1)
       | (Throw e, s1) => handler e s1
       end.

(** [try { body } finally { fin }]: [fin] runs on every exit of [body]; the
    outcome of [body] stands unless [fin] itself throws. *)
Definition try_finally {S A} (body : M S A) (fin : M S unit) : M S A :=
  λ s, match body s with
       | (r, s1) =>
           match fin s1 with
           | (Return _, s2) => (r, s2)
           | (Throw e, s2) => (Throw e, s2)
           end
       end.

(** A [for ... of] loop over [xs] with one loop-carried variable. *)
Fixpoint for_of {S X B} (xs : list X) (body : X → B → M S B) (b : B) : M S B :=
  match xs with
  | [] => ret b
  | x :: xs' => b' ← body x b; for_of xs' body b'
  end.

(** ** The storage engine *)

Record Db := mkDb {
  contentslots : list SlotRow;
  contentslot_options : list OptionRow;
  auto_increment : Z
}.

Definition slot_has_id (i : Z) (r : SlotRow) : bool := bool_decide (row_id r = i).

Definition option_of_slot (i : Z) (r : OptionRow) : bool :=
  bool_decide (contentslot_id r = i).

Definition option_is (i : Z) (k : string) (r : OptionRow) : bool :=
  bool_decide (contentslot_id r = i) && bool_decide (name r = k).

Definition same_fields (r : SlotRow) (v : Z) (ct : string) (cs rs ce re : Z) : bool :=
  bool_decide (view_id r = v) && bool_decide (component_type r = ct)
  && bool_decide (column_start r = cs) && bool_decide (row_start r = rs)
  && bool_decide (column_end r = ce) && bool_decide (row_end r = re).

(** [DELETE ... WHERE id = ? LIMIT 1]: the first matching row goes. *)
Fixpoint delete_first (i : Z) (rows : list SlotRow) : list SlotRow :=
  match rows with
  | [] => []
  | r :: rows' => if slot_has_id i r then rows' else r :: delete_first i rows'
  end.

Definition count_rows {A} (p : A → bool) (rows : list A) : Z :=
  Z.of_nat (length (List.filter p rows)).

Definition er_dup_entry : SqlError := mkSqlError 1062 "ER_DUP_ENTRY"%string.

Definition er_no_referenced_row : SqlError :=
  mkSqlError 1452 "ER_NO_REFERENCED_ROW_2"%string.

(** Modelled from the spec: the storage engine and the table schema, which
    the repository reaches only through [conn.query]. This is the meaning of
    one statement. [found_rows] is the driver's flag of that name: when set,
    an UPDATE reports the rows its WHERE clause matched; when clear, the rows
    whose stored values it changed ("reports that a row was actually
    affected (value differed)"). The slot table has its auto-increment [id]
    as primary key and the option table is unique on [(contentslot_id,
    name)]; an INSERT that would break either fails with errno 1062.
    [contentslot_id] is a foreign key into the slot table: an INSERT of an
    option row for an id without a slot row fails with errno 1452, a
    constraint failure other than a duplicate, and deleting a slot row
    deletes the option rows that name it (the cascade of the storage
    schema). *)
Definition exec (found_rows : bool) (s : Stmt) (d : Db) : Outcome (res_ty s) * Db :=
  match s as s0 return Outcome (res_ty s0) * Db with
  | INSERT_slot v ct cs rs ce re =>
      let i := auto_increment d in
      if existsb (slot_has_id i) (contentslots d)
      then (Throw (Storage er_dup_entry), d)
      else (Return (mkOk 1 i),
            mkDb (contentslots d ++ [mkSlotRow i v ct cs rs ce re])
                 (contentslot_options d) (i + 1))
  | DELETE_slot i =>
      (Return (mkOk (if existsb (slot_has_id i) (contentslots d) then 1 else 0) 0),
       mkDb (delete_first i (contentslots d))
            (if existsb (slot_has_id i) (contentslots d)
             then List.filter (λ r, negb (option_of_slot i r)) (contentslot_options d)
             else contentslot_options d)
            (auto_increment d))
  | SELECT_slots_by_view v =>
      (Return (List.filter (λ r, bool_decide (view_id r = v)) (contentslots d)), d)
  | SELECT_slots_by_component ct =>
      (Return (List.filter (λ r, bool_decide (component_type r = ct)) (contentslots d)), d)
  | UPDATE_slot v ct cs rs ce re i =>
      (Return (mkOk (count_rows
                       (λ r, slot_has_id i r
                             && (found_rows || negb (same_fields r v ct cs rs ce re)))
                       (contentslots d)) 0),
       mkDb (List.map (λ r, if slot_has_id i r
                            then mkSlotRow (row_id r) v ct cs rs ce re else r)
                      (contentslots d))
            (contentslot_options d) (auto_increment d))
  | SELECT_options i =>
      (Return (List.filter (option_of_slot i) (contentslot_options d)), d)
  | SELECT_options_in ids =>
      (Return (List.filter (λ r, bool_decide (contentslot_id r ∈ ids))
                           (contentslot_options d)), d)
  | DELETE_option i k =>
      (Return (mkOk (count_rows (option_is i k) (contentslot_options d)) 0),
       mkDb (contentslots d)
            (List.filter (λ r, negb (option_is i k r)) (contentslot_options d))
            (auto_increment d))
  | UPDATE_option v i k =>
      (Return (mkOk (count_rows
                       (λ r, option_is i k r
                             && (found_rows || negb (bool_decide (value r = v))))
                       (contentslot_options d)) 0),
       mkDb (contentslots d)
            (List.map (λ r, if option_is i k r
                            then mkOptionRow (contentslot_id r) (name r) v else r)
                      (contentslot_options d))
            (auto_increment d))
  | INSERT_option i k v =>
      if existsb (option_is i k) (contentslot_options d)
      then (Throw (Storage er_dup_entry), d)
      else if existsb (slot_has_id i) (contentslots d)
      then (Return (mkOk 1 0),
            mkDb (contentslots d) (contentslot_options d ++ [mkOptionRow i k v])
                 (auto_increment d))
      else (Throw (Storage er_no_referenced_row), d)
  end.

(** ** The world of a method call *)

(** A pooled connection, named by its acquisition number. *)
Definition Conn : Type := nat.

(** [leased] counts the connections handed out and not yet released,
    [acquired] all connections ever handed out. [log] lists the statements
    issued, oldest first, each with the connection it went through.
    [faults] schedules storage failures: every [getConnection] and every
    [query] consumes one entry, [Some e] makes that call reject with [e],
    [None] (or an exhausted schedule) lets the engine answer. *)
Record World := mkWorld {
  db : Db;
  found_rows : bool;
  leased : nat;
  acquired : nat;
  log : list (Conn * Stmt);
  faults : list (option SqlError)
}.

(** [await this.connectionPool.getConnection()] *)
Definition getConnection : M World Conn :=
  λ w, match faults w with
       | Some e :: fs =>
           (Throw (Storage e),
            mkWorld (db w) (found_rows w) (leased w) (acquired w) (log w) fs)
       | _ =>
           (Return (acquired w),
            mkWorld (db w) (found_rows w) (S (leased w)) (S (acquired w))
                    (log w) (tail (faults w)))
       end.

(** [conn.release()] *)
Definition release (conn : Conn) : M World unit :=
  λ w, (Return tt,
        mkWorld (db w) (found_rows w) (pred (leased w)) (acquired w)
                (log w) (faults w)).

(** [await conn.query(sql, params)] *)
Definition query (conn : Conn) (s : Stmt) : M World (res_ty s) :=
  λ w, match faults w with
       | Some e :: fs =>
           (Throw (Storage e),
            mkWorld (db w) (found_rows w) (leased w) (acquired w)
                    (log w ++ [(conn, s)]) fs)
       | _ =>
           match exec (found_rows w) s (db w) with
           | (r, d) =>
               (r, mkWorld d (found_rows w) (leased w) (acquired w)
                           (log w ++ [(conn, s)]) (tail (faults w)))
           end
       end.

(** The frame of a public method: its local variable [conn], [None] while
    it is [undefined], next to the world. *)
Definition Frame : Type := option Conn * World.

Definition lift {A} (m : M World A) : M Frame A :=
  λ f, match m f.2 with (r, w) => (r, (f.1, w)) end.

(** [conn = c] *)
Definition assign_conn (c : Conn) : M Frame unit :=
  λ f, (Return tt, (Some c, f.2)).

(** [if (conn) { conn.release() }] *)
Definition release_if_conn : M Frame unit :=
  λ f, match f.1 with
       | Some c => lift (release c) f
       | None => (Return tt, f)
       end.

(** A method call: a fresh frame with [let conn] undefined, dropped on exit. *)
Definition call {A} (body : M Frame A) : M World A :=
  λ w, match body (None, w) with (r, f) => (r, f.2) end.

(** ** The methods of the class *)

(** [rows.forEach(row => options.set(row.name, row.value))] from a new Map. *)
Definition rows_to_map (rows : list OptionRow) : gmap string string :=
  foldl (λ m row, <[name row := value row]> m) ∅ rows.

Definition getOptionsForContentSlot (conn : Conn) (id : Z)
  : M World (gmap string string) :=
  rows ← query conn (SELECT_options id);
  mret (rows_to_map rows).

(** The callback of the second [forEach] of [getOptionsForContentSlots]:
    [options.get(id).set(name, value)], a TypeError when [options.get(id)]
    is [undefined]. *)
Definition fill_options {S} (row : OptionRow)
    (options : gmap Z (gmap string string)) : M S (gmap Z (gmap string string)) :=
  match options !! contentslot_id row with
  | Some inner =>
      mret (<[contentslot_id row := <[name row := value row]> inner]> options)
  | None => throw TypeError
  end.

Definition getOptionsForContentSlots (conn : Conn) (ids : list Z)
  : M World (gmap Z (gmap string string)) :=
  rows ← query conn (SELECT_options_in ids);
  let options := foldl (λ m id, <[id := ∅]> m) ∅ ids in
  for_of rows fill_options options.

(** [Object.prototype.hasOwnProperty.call(options, key)] *)
Definition hasOwnProperty (options : gmap string string) (key : string) : bool :=
  bool_decide (is_Some (options !! key)).

(** [Object.entries(options)]. The object is a finite map of its own
    enumerable properties; JavaScript lists them in insertion order,
    [map_to_list] in an order of its own, without repetition either way.
    Only the order of the statements in the log depends on it. *)
Definition Object_entries (options : gmap string string) : list (string * string) :=
  map_to_list options.

(** [existingOptions.keys()], with the same remark on the order. *)
Definition Map_keys (m : gmap string string) : list string := (map_to_list m).*1.

(** [existingOptions.has(key)] *)
Definition Map_has (m : gmap string string) (key : string) : bool :=
  bool_decide (is_Some (m !! key)).

(** The body of the first loop of [setOptionsForContentSlot]: remove an
    existing option not present in the new options object. *)
Definition remove_stale (conn : Conn) (id : Z) (options : gmap string string)
    (key : string) (optionsChanged : bool) : M World bool :=
  if negb (hasOwnProperty options key)
  then query conn (DELETE_option id key);; mret true
  else mret optionsChanged.

(** The body of its second loop: update the option when it existed,
    insert it otherwise. *)
Definition write_entry (conn : Conn) (id : Z)
    (existingOptions : gmap string string)
    (entry : string * string) (optionsChanged : bool) : M World bool :=
  let key := entry.1 in
  let value := entry.2 in
  if Map_has existingOptions key
  then
    updateResult ← query conn (UPDATE_option value id key);
    mret (if bool_decide (affectedRows updateResult = 1)
          then true else optionsChanged)
  else
    query conn (INSERT_option id key value);; mret true.

Definition setOptionsForContentSlot (conn : Conn) (id : Z)
    (options : gmap string string) : M World bool :=
  let optionsChanged := false in
  existingOptions ← getOptionsForContentSlot conn id;
  optionsChanged ←
    for_of (Map_keys existingOptions) (remove_stale conn id options)
           optionsChanged;
  for_of (Object_entries options) (write_entry conn id existingOptions)
         optionsChanged.

Definition rowToObject (row : SlotRow) : ContentSlot :=
  {| id := row_id row;
     componentType := component_type row;
     viewId := view_id row;
     columnStart := column_start row;
     rowStart := row_start row;
     columnEnd := column_end row;
     rowEnd := row_end row;
     options := ∅ |}.

(** [object[key] = value] on an object created by [{}]: the key
    [__proto__] reaches the accessor of [Object.prototype], which ignores a
    string, so no own property appears; any other key becomes one. *)
Definition set_property (o : gmap string string) (key value : string)
  : gmap string string :=
  if bool_decide (key = "__proto__"%string) then o else <[key := value]> o.

(** [options.forEach((value, key) => { object.options[key] = value })] on
    the empty object of [rowToObject]. *)
Definition flatten (options : gmap string string) : gmap string string :=
  foldl (λ o kv, set_property o kv.1 kv.2) ∅ (map_to_list options).

(** [object] with its [options] property holding [m]. *)
Definition set_options (object : ContentSlot) (m : gmap string string)
  : ContentSlot :=
  {| id := id object;
     componentType := componentType object;
     viewId := viewId object;
     columnStart := columnStart object;
     rowStart := rowStart object;
     columnEnd := columnEnd object;
     rowEnd := rowEnd object;
     options := m |}.

(** [options] is [None] when the caller passes [undefined]; [forEach] on it
    is then a TypeError. *)
Definition rowToObjectWithOptions {S} (row : SlotRow)
    (options : option (gmap string string)) : M S ContentSlot :=
  let object := rowToObject row in
  match options with
  | Some opts => mret (set_options object (flatten opts))
  | None => throw TypeError
  end.

(** [xs.map(f)] for a callback that can throw. *)
Fixpoint array_map {S X Y} (f : X → M S Y) (xs : list X) : M S (list Y) :=
  match xs with
  | [] => mret []
  | x :: xs' => y ← f x; ys ← array_map f xs'; mret (y :: ys)
  end.

(** Each public method is [let conn; try { ... } finally { if (conn)
    conn.release() }]; its [try] block is a definition of its own, named
    after the method. *)

Definition createContentSlot_try (componentType : string)
    (viewId columnStart rowStart columnEnd rowEnd : Z)
    (options : gmap string string) : M Frame Z :=
  conn ← lift getConnection;
  assign_conn conn;;
  insertResult ← lift (query conn
    (INSERT_slot viewId componentType columnStart rowStart columnEnd rowEnd));
  let contentSlotId := insertId insertResult in
  lift (setOptionsForContentSlot conn contentSlotId options);;
  mret contentSlotId.

(** The [catch (e)] block of [createContentSlot]. *)
Definition createContentSlot_catch (e : Exn) : M Frame Z :=
  if bool_decide (exn_errno e = Some 1062)
  then throw (DuplicateEntryError (exn_code e))
  else throw (Error (exn_code e)).

Definition createContentSlot (componentType : string)
    (viewId columnStart rowStart columnEnd rowEnd : Z)
    (options : gmap string string) : M World Z :=
  call (try_finally
    (try_catch
       (createContentSlot_try componentType viewId columnStart rowStart
                              columnEnd rowEnd options)
       createContentSlot_catch)
    release_if_conn).

Definition deleteOne_try (id : Z) : M Frame (option Z) :=
  conn ← lift getConnection;
  assign_conn conn;;
  result ← lift (query conn (DELETE_slot id));
  mret (if bool_decide (affectedRows result = 1) then Some id else None).

Definition deleteOne (id : Z) : M World (option Z) :=
  call (try_finally (deleteOne_try id) release_if_conn).

Definition getContentSlotsByViewId_try (viewId : Z) : M Frame (list ContentSlot) :=
  conn ← lift getConnection;
  assign_conn conn;;
  rows ← lift (query conn (SELECT_slots_by_view viewId));
  if bool_decide (length rows = 0%nat)
  then mret []
  else
    let contentSlotIds := List.map row_id rows in
    options ← lift (getOptionsForContentSlots conn contentSlotIds);
    array_map (λ row, rowToObjectWithOptions row (options !! row_id row)) rows.

Definition getContentSlotsByViewId (viewId : Z) : M World (list ContentSlot) :=
  call (try_finally (getContentSlotsByViewId_try viewId) release_if_conn).

Definition getContentSlotsByComponentType_try (componentType : string)
  : M Frame (list ContentSlot) :=
  conn ← lift getConnection;
  assign_conn conn;;
  rows ← lift (query conn (SELECT_slots_by_component componentType));
  mret (List.map rowToObject rows).

Definition getContentSlotsByComponentType (componentType : string)
  : M World (list ContentSlot) :=
  call (try_finally (getContentSlotsByComponentType_try componentType)
                    release_if_conn).

Definition updateContentSlot_try (id : Z) (componentType : string)
    (viewId columnStart rowStart columnEnd rowEnd : Z)
    (options : gmap string string) : M Frame (option Z) :=
  conn ← lift getConnection;
  assign_conn conn;;
  result ← lift (query conn
    (UPDATE_slot viewId componentType columnStart rowStart columnEnd rowEnd id));
  let contentSlotChanged := bool_decide (affectedRows result = 1) in
  optionsChanged ← lift (setOptionsForContentSlot conn id options);
  mret (if contentSlotChanged || optionsChanged then Some id else None).

Definition updateContentSlot (id : Z) (componentType : string)
    (viewId columnStart rowStart columnEnd rowEnd : Z)
    (options : gmap string string) : M World (option Z) :=
  call (try_finally
    (updateContentSlot_try id componentType viewId columnStart rowStart
                           columnEnd rowEnd options)
    release_if_conn).

(** ** Observations on a database *)

(** The options of slot [i] as the repository reads them back: the rows of
    the slot folded into a map, exactly as [getOptionsForContentSlot] does. *)
Definition slot_options (tbl : list OptionRow) (i : Z) : gmap string string :=
  rows_to_map (List.filter (option_of_slot i) tbl).

Definition stored_options (w : World) (i : Z) : gmap string string :=
  slot_options (contentslot_options (db w)) i.

(** The unique key of the option table. *)
Definition unique_options (tbl : list OptionRow) : Prop :=
  NoDup (List.map (λ r, (contentslot_id r, name r)) tbl).

(** The primary key of the slot table. *)
Definition unique_slots (rows : list SlotRow) : Prop :=
  NoDup (List.map row_id rows).

(** The world right after the engine has answered statement [s] on
    connection [conn] and left the database as [d]. *)
Definition answered (conn : Conn) (s : Stmt) (d : Db) (w : World) : World :=
  mkWorld d (found_rows w) (leased w) (acquired w)
          (log w ++ [(conn, s)]) (tail (faults w)).

(** On the way from [w] to [w'] every entry of the schedule that was used
    up let its call through: no scheduled failure fired. *)
Definition undisturbed (w w' : World) : Prop :=
  ∃ n, faults w = replicate n None ++ faults w'.

(** What a run of option statements for slot [i] leaves alone. *)
Record options_step (i : Z) (w w' : World) : Prop := mkOptionsStep {
  step_found_rows : found_rows w' = found_rows w;
  step_slots : contentslots (db w') = contentslots (db w);
  step_auto_increment : auto_increment (db w') = auto_increment (db w);
  step_other_slots : ∀ j, j ≠ i →
    List.filter (option_of_slot j) (contentslot_options (db w')) =
    List.filter (option_of_slot j) (contentslot_options (db w));
  step_unique :
    unique_options (contentslot_options (db w)) →
    unique_options (contentslot_options (db w'));
  step_quiet : faults w = [] → faults w' = [];
  step_faults : ∀ f, f ∈ faults w' → f ∈ faults w;
  step_run : undisturbed w w'
}.

(** The statement the second loop of [setOptionsForContentSlot] issues for
    an entry, given the options it read at the start. *)
Definition write_stmt (i : Z) (existingOptions : gmap string string)
    (entry : string * string) : Stmt :=
  if Map_has existingOptions entry.1
  then UPDATE_option entry.2 i entry.1
  else INSERT_option i entry.1 entry.2.

(** The statements a run of [setOptionsForContentSlot] issues when none of
    them fails, given the options [E] stored at the start: one read, one
    DELETE per stale key, one UPDATE or INSERT per desired entry. *)
Definition synchronize_log (conn : Conn) (i : Z) (D E : gmap string string)
  : list (Conn * Stmt) :=
  (conn, SELECT_options i)
  :: List.map (λ k, (conn, DELETE_option i k))
              (List.filter (λ k, negb (hasOwnProperty D k)) (Map_keys E))
  ++ List.map (λ kv, (conn, write_stmt i E kv)) (Object_entries D).

(** Whether the second loop counts an entry as a change, given the options
    [E] stored at the start: a new key always, a known key when the UPDATE
    reports one affected row, which under [found_rows] is always and
    otherwise when the stored value differs. *)
Definition entry_counts (found_rows : bool) (E : gmap string string)
    (entry : string * string) : bool :=
  found_rows || negb (bool_decide (E !! entry.1 = Some entry.2)).

(** The flag [setOptionsForContentSlot] computes from the stored options
    [E] and the desired ones [D]. *)
Definition options_changed (found_rows : bool) (E D : gmap string string) : bool :=
  existsb (λ k, negb (hasOwnProperty D k)) (Map_keys E)
  || existsb (entry_counts found_rows E) (Object_entries D).

(** [e] is one of the failures scheduled in [w], as the driver raised it. *)
Definition scheduled (e : Exn) (w : World) : Prop :=
  ∃ s, e = Storage s ∧ Some s ∈ faults w.

(** The way from [w] to [w'] ended on the first scheduled failure it met,
    and [e] is the driver's exception of that failure, as the driver raised
    it. *)
Definition raised (e : Exn) (w w' : World) : Prop :=
  ∃ n s, e = Storage s ∧ faults w = replicate n None ++ Some s :: faults w'.

(** The foreign key of the option table turned down a row for slot [i],
    which is not stored: [e] is the engine's exception for it, and no
    scheduled failure fired on the way from [w] to [w']. *)
Definition refused (i : Z) (e : Exn) (w w' : World) : Prop :=
  e = Storage er_no_referenced_row
  ∧ undisturbed w w'
  ∧ existsb (slot_has_id i) (contentslots (db w)) = false.

(** What a method without a [catch] block makes of storage failures, on
    the way from [w] to its outcome [run]: it returns only when no scheduled
    failure fired; when one fired it throws the driver's exception of the
    first one, as raised; either way it has given its connection back. *)
Definition surfaces {A} (w : World) (run : Outcome A * World) : Prop :=
  leased run.2 = leased w
  ∧ match run.1 with
    | Return _ => undisturbed w run.2
    | Throw e => raised e w run.2
    end.

(** The statements that read or write the option table. *)
Definition option_statement (s : Stmt) : bool :=
  match s with
  | SELECT_options _ | SELECT_options_in _
  | DELETE_option _ _ | UPDATE_option _ _ _ | INSERT_option _ _ _ => true
  | _ => false
  end.

(** The slot rows of a view, as [SELECT ... WHERE view_id = ?] lists them. *)
Definition slots_of_view (v : Z) (w : World) : list SlotRow :=
  List.filter (λ r, bool_decide (view_id r = v)) (contentslots (db w)).

(** The slot rows with a component type. *)
Definition slots_of_component (ct : string) (w : World) : list SlotRow :=
  List.filter (λ r, bool_decide (component_type r = ct)) (contentslots (db w)).

(** A world computation that neither acquires nor releases. *)
Definition pool_neutral {A} (m : M World A) : Prop :=
  ∀ w, leased (m w).2 = leased w ∧ acquired (m w).2 = acquired w.

(** A frame computation that leaves [conn] and the pool as they are. *)
Definition keeps_conn {A} (m : M Frame A) : Prop :=
  ∀ f, (m f).2.1 = f.1 ∧ leased (m f).2.2 = leased f.2.

(** A [try] block entered with [conn] undefined: on every exit, [conn] is
    set exactly when one more connection is leased than at entry. *)
Definition scoped {A} (m : M Frame A) : Prop :=
  ∀ w, match (m (None, w)).2 with
       | (None, w') => leased w' = leased w
       | (Some _, w') => leased w' = S (leased w)
       end.

(** The world after [getConnection] has handed out a connection. *)
Definition connected (w : World) : World :=
  mkWorld (db w) (found_rows w) (S (leased w)) (S (acquired w))
          (log w) (tail (faults w)).

(** The world after [conn.release()]. *)
Definition released (w : World) : World :=
  mkWorld (db w) (found_rows w) (pred (leased w)) (acquired w)
          (log w) (faults w).

(** The failures the spec calls typed: [DuplicateEntryError] and the
    generic [Error]. *)
Definition typed_failure (e : Exn) : Prop :=
  match e with
  | DuplicateEntryError _ | Error _ => True
  | Storage _ | TypeError => False
  end.

(** An outcome through which no exception of the driver escapes. *)
Definition shielded {A} (r : Outcome A) : Prop :=
  match r with
  | Return _ => True
  | Throw e => typed_failure e
  end.

(** The statement of the spec: no method lets an exception of the driver
    reach its caller. *)
Definition no_raw_exception_escapes : Prop :=
  (∀ ct v cs rs ce re D w, shielded (createContentSlot ct v cs rs ce re D w).1)
  ∧ (∀ i w, shielded (deleteOne i w).1)
  ∧ (∀ v w, shielded (getContentSlotsByViewId v w).1)
  ∧ (∀ ct w, shielded (getContentSlotsByComponentType ct w).1)
  ∧ (∀ i ct v cs rs ce re D w,
       shielded (updateContentSlot i ct v cs rs ce re D w).1).

(** The last scenario of the statement on [updateContentSlot], read for
    every driver: a call repeated with the same arguments right after a
    completed one returns [None]. *)
Definition repeated_update_returns_absent : Prop :=
  ∀ i ct v cs rs ce re (D : gmap string string) (w w' w'' : World)
    (r r2 : option Z),
    updateContentSlot i ct v cs rs ce re D w = (Return r, w') →
    updateContentSlot i ct v cs rs ce re D w' = (Return r2, w'') →
    r2 = None.

(** The statement about a slot that is not stored: with no slot row for
    the id, no option row for it either (the synchronizer "finding no
    existing options"), an options map that is not empty and no storage
    failure scheduled, the call returns the id and leaves an option row for
    every desired key. *)
Definition missing_slot_update_returns_id : Prop :=
  ∀ i ct v cs rs ce re (D : gmap string string) (w : World),
    faults w = [] →
    (∀ row, row ∈ contentslots (db w) → row_id row ≠ i) →
    stored_options w i = ∅ →
    D ≠ ∅ →
    (updateContentSlot i ct v cs rs ce re D w).1 = Return (Some i)
    ∧ ∀ k x, D !! k = Some x →
        mkOptionRow i k x
        ∈ contentslot_options (db (updateContentSlot i ct v cs rs ce re D w).2).

(** A world computation that keeps a property of the database, on every
    exit. *)
Definition keeps_db {A} (P : Db → Prop) (m : M World A) : Prop :=
  ∀ w, P (db w) → P (db (m w).2).

Definition keeps_db_frame {A} (P : Db → Prop) (m : M Frame A) : Prop :=
  ∀ f, P (db f.2) → P (db (m f).2.2).

(** A statement that keeps a property of the database whenever the engine
    executes it. *)
Definition stmt_keeps (P : Db → Prop) (s : Stmt) : Prop :=
  ∀ found_rows d, P d → P (exec found_rows s d).2.

(** The statements on the option rows of slot [i]. *)
Definition on_slot (i : Z) (s : Stmt) : bool :=
  match s with
  | SELECT_options j | DELETE_option j _ | UPDATE_option _ j _
  | INSERT_option j _ _ => bool_decide (j = i)
  | _ => false
  end.

(** ** Sample data *)

(** An empty database behind an idle pool, with no failure scheduled. *)
Definition empty_world (found_rows : bool) : World :=
  mkWorld (mkDb [] [] 1) found_rows 0 0 [] [].

Definition red : gmap string string := {[ "color"%string := "red"%string ]}.

Definition blue_large : gmap string string :=
  {[ "color"%string := "blue"%string; "size"%string := "large"%string ]}.

(** The world after [createContentSlot("Banner", 1, 1, 1, 3, 2, {color:
    "red"})] on the empty database: slot 1 with one option row. *)
Definition banner_world : World :=
  (createContentSlot "Banner" 1 1 1 3 2 red (empty_world false)).2.

(** The same behind a driver that reports matched rows. *)
Definition matched_world : World :=
  (createContentSlot "Banner" 1 1 1 3 2 red (empty_world true)).2.

(** A lock wait timeout, a storage failure that is not a duplicate key. *)
Definition lock_timeout : SqlError := mkSqlError 1205 "ER_LOCK_WAIT_TIMEOUT".

(** [banner_world] with the pool answering and the first statement failing
    on a lock wait timeout. *)
Definition failing_world : World :=
  mkWorld (db banner_world) false 0 1 (log banner_world)
          [None; Some lock_timeout].

(** [banner_world] with the pool and the first statement answering and the
    second statement failing on a lock wait timeout. *)
Definition half_way_world : World :=
  mkWorld (db banner_world) false 0 1 (log banner_world)
          [None; None; Some lock_timeout].

(** Options with a key named [__proto__]. *)
Definition proto_red : gmap string string :=
  {[ "__proto__"%string := "x"%string; "color"%string := "red"%string ]}.

(** The value of an outcome that returned, [d] for one that threw. *)
Definition returned {A} (d : A) (r : Outcome A) : A :=
  match r with Return a => a | Throw _ => d end.

(** ** The option table under the engine's statements *)

Section option_table.
Implicit Types (tbl : list OptionRow) (r : OptionRow) (i j : Z) (k v : string).

Lemma rows_to_map_snoc (rows : list OptionRow) r :
  rows_to_map (rows ++ [r]) = <[name r := value r]> (rows_to_map rows).
Proof. unfold rows_to_map. by rewrite foldl_app. Qed.

Lemma slot_options_nil j : slot_options [] j = ∅.
Proof. done. Qed.

Lemma slot_options_snoc tbl r j :
  slot_options (tbl ++ [r]) j =
    if bool_decide (contentslot_id r = j)
    then <[name r := value r]> (slot_options tbl j)
    else slot_options tbl j.
Proof.
  unfold slot_options. rewrite List.filter_app. simpl.
  unfold option_of_slot at 2. case_bool_decide.
  - apply rows_to_map_snoc.
  - by rewrite app_nil_r.
Qed.

Lemma option_is_spec i k r :
  option_is i k r = true ↔ contentslot_id r = i ∧ name r = k.
Proof.
  unfold option_is. rewrite andb_true_iff, !bool_decide_eq_true. tauto.
Qed.

Lemma slot_options_delete tbl i k j :
  slot_options (List.filter (λ r, negb (option_is i k r)) tbl) j =
    if bool_decide (i = j) then delete k (slot_options tbl j)
    else slot_options tbl j.
Proof.
  induction tbl as [|r tbl IH] using rev_ind.
  - simpl. rewrite slot_options_nil. case_bool_decide; [|done].
    by rewrite delete_empty.
  - rewrite List.filter_app. simpl. rewrite slot_options_snoc.
    destruct (option_is i k r) eqn:E; simpl.
    + apply option_is_spec in E as [<- <-]. rewrite app_nil_r, IH.
      case_bool_decide; [|done]. by rewrite delete_insert_eq.
    + rewrite slot_options_snoc, IH.
      repeat case_bool_decide; try done. subst j.
      rewrite delete_insert_ne; [done|]. intros ->.
      assert (option_is i (name r) r = true) by by apply option_is_spec.
      congruence.
Qed.

Lemma slot_options_update tbl v i k j :
  slot_options
    (List.map (λ r, if option_is i k r
                    then mkOptionRow (contentslot_id r) (name r) v else r) tbl) j =
    if bool_decide (i = j) then alter (λ _, v) k (slot_options tbl j)
    else slot_options tbl j.
Proof.
  induction tbl as [|r tbl IH] using rev_ind.
  - simpl. rewrite slot_options_nil. case_bool_decide; [|done].
    apply map_eq. intros k'.
    by rewrite lookup_alter, !lookup_empty; case_decide.
  - rewrite List.map_app. simpl. rewrite !slot_options_snoc, IH.
    destruct (option_is i k r) eqn:E; simpl.
    + apply option_is_spec in E as [<- <-].
      case_bool_decide; [|done].
      apply map_eq. intros k'.
      rewrite !lookup_alter, !lookup_insert, lookup_alter.
      repeat case_decide; simplify_eq; done.
    + repeat case_bool_decide; try done. subst j.
      assert (name r ≠ k). {
        intros <-. assert (option_is i (name r) r = true) by by apply option_is_spec.
        congruence. }
      apply map_eq. intros k'.
      rewrite !lookup_alter, !lookup_insert, lookup_alter.
      repeat case_decide; simplify_eq; done.
Qed.

Lemma slot_options_exists tbl i k :
  existsb (option_is i k) tbl = bool_decide (is_Some (slot_options tbl i !! k)).
Proof.
  induction tbl as [|r tbl IH] using rev_ind.
  - simpl. rewrite bool_decide_eq_false_2; [done|].
    rewrite slot_options_nil, lookup_empty. by intros [? ?].
  - rewrite existsb_app, slot_options_snoc, IH. simpl. rewrite orb_false_r.
    destruct (option_is i k r) eqn:E.
    + apply option_is_spec in E as [<- <-].
      rewrite (bool_decide_eq_true_2 (contentslot_id r = _)) by done.
      rewrite orb_true_r. symmetry. apply bool_decide_eq_true_2.
      rewrite lookup_insert_eq. eauto.
    + rewrite orb_false_r.
      destruct (bool_decide_reflect (contentslot_id r = i)) as [Hi|Hi]; [|done].
      rewrite lookup_insert_ne; [done|]. intros <-.
      assert (option_is i (name r) r = true) by by apply option_is_spec.
      congruence.
Qed.

Lemma unique_options_snoc tbl r :
  unique_options (tbl ++ [r]) ↔
    unique_options tbl
    ∧ existsb (option_is (contentslot_id r) (name r)) tbl = false.
Proof.
  unfold unique_options. rewrite List.map_app. simpl.
  rewrite NoDup_app. simpl. split.
  - intros (Hn & Hd & _). split; [done|].
    apply not_true_iff_false. intros (r' & Hin & E)%existsb_exists.
    apply option_is_spec in E as [E1 E2].
    apply (Hd (contentslot_id r, name r)).
    + apply list_elem_of_In, in_map_iff. exists r'.
      split; [by rewrite E1, E2|done].
    + apply list_elem_of_here.
  - intros [Hn He]. split; [done|]. split.
    + intros x Hx ->%list_elem_of_singleton.
      apply list_elem_of_In, in_map_iff in Hx as (r' & E & Hin).
      apply not_true_iff_false in He. apply He, existsb_exists.
      exists r'. split; [done|]. apply option_is_spec. by simplify_eq.
    + apply NoDup_singleton.
Qed.

Lemma unique_options_delete tbl i k :
  unique_options tbl →
  unique_options (List.filter (λ r, negb (option_is i k r)) tbl).
Proof.
  induction tbl as [|r tbl IH] using rev_ind; [done|].
  intros [Hu He]%unique_options_snoc. rewrite List.filter_app. simpl.
  destruct (negb (option_is i k r)).
  - apply unique_options_snoc. split; [by apply IH|].
    apply not_true_iff_false. intros (r' & Hin & E)%existsb_exists.
    apply not_true_iff_false in He. apply He, existsb_exists.
    exists r'. split; [|done]. by apply filter_In in Hin as [? _].
  - rewrite app_nil_r. by apply IH.
Qed.

Lemma unique_options_update tbl v i k :
  unique_options tbl →
  unique_options
    (List.map (λ r, if option_is i k r
                    then mkOptionRow (contentslot_id r) (name r) v else r) tbl).
Proof.
  unfold unique_options. rewrite List.map_map.
  assert (List.map (λ r, (contentslot_id
            (if option_is i k r then mkOptionRow (contentslot_id r) (name r) v else r),
            name (if option_is i k r then mkOptionRow (contentslot_id r) (name r) v else r))) tbl
          = List.map (λ r, (contentslot_id r, name r)) tbl) as ->; [|done].
  apply map_ext. intros r. by destruct (option_is i k r).
Qed.

(** With the unique key in force, an UPDATE of option [k] that reports
    changed rows reports one row exactly when the stored value differs. *)
Lemma changed_rows_unique tbl v i k :
  unique_options tbl →
  count_rows (λ r, option_is i k r && negb (bool_decide (value r = v))) tbl =
    match slot_options tbl i !! k with
    | Some v' => if bool_decide (v' = v) then 0 else 1
    | None => 0
    end.
Proof.
  unfold count_rows.
  induction tbl as [|r tbl IH] using rev_ind; [done|].
  intros [Hu He]%unique_options_snoc.
  rewrite List.filter_app, length_app, Nat2Z.inj_add, IH by done.
  rewrite slot_options_snoc. simpl.
  destruct (option_is i k r) eqn:E; simpl.
  - apply option_is_spec in E as [<- <-].
    rewrite slot_options_exists in He. apply bool_decide_eq_false in He.
    rewrite (bool_decide_eq_true_2 (contentslot_id r = _)) by done.
    rewrite lookup_insert_eq.
    destruct (slot_options tbl (contentslot_id r) !! name r) eqn:L.
    { exfalso. apply He. eauto. }
    by case_bool_decide.
  - destruct (bool_decide_reflect (contentslot_id r = i)) as [Hi|Hi]; [|lia].
    rewrite lookup_insert_ne; [lia|]. intros <-.
    assert (option_is i (name r) r = true) by by apply option_is_spec.
    congruence.
Qed.

(** When matched rows are reported instead, the count is one for every
    stored key, whatever its value. *)
Lemma found_rows_unique tbl v i k :
  unique_options tbl →
  count_rows (λ r, option_is i k r && (true || negb (bool_decide (value r = v)))) tbl =
    if bool_decide (is_Some (slot_options tbl i !! k)) then 1 else 0.
Proof.
  unfold count_rows.
  induction tbl as [|r tbl IH] using rev_ind.
  { intros _. simpl. rewrite bool_decide_eq_false_2; [done|].
    rewrite slot_options_nil, lookup_empty. by intros [? ?]. }
  intros [Hu He]%unique_options_snoc.
  rewrite List.filter_app, length_app, Nat2Z.inj_add, IH by done.
  rewrite slot_options_snoc. simpl. rewrite andb_true_r.
  destruct (option_is i k r) eqn:E; simpl.
  - apply option_is_spec in E as [<- <-].
    rewrite slot_options_exists in He. rewrite He.
    rewrite (bool_decide_eq_true_2 (contentslot_id r = _)) by done.
    rewrite lookup_insert_eq.
    rewrite bool_decide_eq_true_2 by eauto. done.
  - destruct (bool_decide_reflect (contentslot_id r = i)) as [Hi|Hi]; [|lia].
    rewrite lookup_insert_ne; [lia|]. intros <-.
    assert (option_is i (name r) r = true) by by apply option_is_spec.
    congruence.
Qed.
End option_table.

(** ** Running statements *)

Lemma bind_eq {S A B} (m : M S A) (k : A → M S B) (s : S) :
  (m ≫= k) s =
    match m s with
    | (Return a, s1) => k a s1
    | (Throw e, s1) => (Throw e, s1)
    end.
Proof. reflexivity. Qed.

(** A query either meets a scheduled failure or is answered by [exec]. *)
Lemma query_cases (conn : Conn) (s : Stmt) (w : World) :
  (∃ e, scheduled e w ∧ query conn s w = (Throw e, answered conn s (db w) w))
  ∨ query conn s w =
      ((exec (found_rows w) s (db w)).1,
       answered conn s (exec (found_rows w) s (db w)).2 w).
Proof.
  unfold query, answered, scheduled.
  destruct (faults w) as [|[e|] fs] eqn:F; simpl.
  - right. by destruct (exec (found_rows w) s (db w)).
  - left. exists (Storage e). split; [|done].
    exists e. split; [done|]. apply list_elem_of_here.
  - right. by destruct (exec (found_rows w) s (db w)).
Qed.

Lemma tail_elem_of {A} (l : list A) (x : A) : x ∈ tail l → x ∈ l.
Proof. destruct l; [done|]. apply list_elem_of_further. Qed.

Lemma scheduled_quiet e w : scheduled e w → faults w ≠ [].
Proof. intros (s & _ & Hin) F. rewrite F in Hin. by apply elem_of_nil in Hin. Qed.

Lemma scheduled_answered e conn s d w :
  scheduled e (answered conn s d w) → scheduled e w.
Proof.
  intros (x & -> & Hin). exists x. split; [done|]. by apply tail_elem_of.
Qed.

Lemma undisturbed_refl w : undisturbed w w.
Proof. by exists 0%nat. Qed.

Lemma undisturbed_trans w1 w2 w3 :
  undisturbed w1 w2 → undisturbed w2 w3 → undisturbed w1 w3.
Proof.
  intros [n Hn] [m Hm]. exists (n + m)%nat.
  by rewrite Hn, Hm, replicate_add, <- app_assoc.
Qed.

Lemma raised_after e w1 w2 w3 :
  undisturbed w1 w2 → raised e w2 w3 → raised e w1 w3.
Proof.
  intros [n Hn] (m & s & -> & Hm). exists (n + m)%nat, s. split; [done|].
  by rewrite Hn, Hm, replicate_add, <- app_assoc.
Qed.

Lemma raised_scheduled e w w' : raised e w w' → scheduled e w.
Proof.
  intros (n & s & -> & Hf). exists s. split; [done|]. rewrite Hf.
  apply elem_of_app. right. apply list_elem_of_here.
Qed.

(** A statement either meets a scheduled failure, which the driver raises,
    or finds the schedule letting it through and is answered by [exec]. *)
Lemma query_run (conn : Conn) (s : Stmt) (w : World) :
  (∃ e, raised e w (answered conn s (db w) w)
        ∧ query conn s w = (Throw e, answered conn s (db w) w))
  ∨ ((∀ d, undisturbed w (answered conn s d w))
     ∧ query conn s w =
         ((exec (found_rows w) s (db w)).1,
          answered conn s (exec (found_rows w) s (db w)).2 w)).
Proof.
  unfold query, answered, raised, undisturbed.
  destruct (faults w) as [|[e|] fs] eqn:F; simpl.
  - right. split; [by exists 0%nat|]. by destruct (exec (found_rows w) s (db w)).
  - left. exists (Storage e). split; [|done]. by exists 0%nat, e.
  - right. split; [by exists 1%nat|]. by destruct (exec (found_rows w) s (db w)).
Qed.

Lemma options_step_refl i w : options_step i w w.
Proof. constructor; try done. apply undisturbed_refl. Qed.

Lemma options_step_trans i w1 w2 w3 :
  options_step i w1 w2 → options_step i w2 w3 → options_step i w1 w3.
Proof.
  intros [F1 S1 A1 O1 U1 Q1 I1 R1] [F2 S2 A2 O2 U2 Q2 I2 R2].
  constructor; try congruence; auto.
  - intros j Hj. by rewrite O2, O1.
  - by eapply undisturbed_trans.
Qed.

Lemma refused_after i e w1 w2 w3 :
  options_step i w1 w2 → refused i e w2 w3 → refused i e w1 w3.
Proof.
  intros Hs (-> & Hrun & Hfk). split_and!; [done| |].
  - eapply undisturbed_trans; [apply (step_run _ _ _ Hs)|done].
  - by rewrite <- (step_slots _ _ _ Hs).
Qed.

(** The three data-changing option statements, when the engine answers. *)
Section option_statements.
Context (conn : Conn) (i : Z) (w : World).

Lemma option_of_slot_false j (r : OptionRow) :
  contentslot_id r ≠ j → option_of_slot j r = false.
Proof. intros. by apply bool_decide_eq_false_2. Qed.

Lemma other_rows_delete k j :
  j ≠ i →
  List.filter (option_of_slot j)
    (List.filter (λ r, negb (option_is i k r)) (contentslot_options (db w))) =
  List.filter (option_of_slot j) (contentslot_options (db w)).
Proof.
  intros Hj. induction (contentslot_options (db w)) as [|r tbl IH]; [done|].
  simpl. destruct (option_is i k r) eqn:E; simpl.
  - apply option_is_spec in E as [E _].
    by rewrite option_of_slot_false by congruence.
  - destruct (option_of_slot j r); by rewrite IH.
Qed.

Lemma other_rows_update k v j :
  j ≠ i →
  List.filter (option_of_slot j)
    (List.map (λ r, if option_is i k r
                    then mkOptionRow (contentslot_id r) (name r) v else r)
              (contentslot_options (db w))) =
  List.filter (option_of_slot j) (contentslot_options (db w)).
Proof.
  intros Hj. induction (contentslot_options (db w)) as [|r tbl IH]; [done|].
  simpl. destruct (option_is i k r) eqn:E; simpl.
  - apply option_is_spec in E as [E _].
    by rewrite !option_of_slot_false by (simpl; congruence).
  - destruct (option_of_slot j r); by rewrite IH.
Qed.

Lemma delete_step k :
  (∀ d, undisturbed w (answered conn (DELETE_option i k) d w)) →
  options_step i w
    (answered conn (DELETE_option i k)
              (exec (found_rows w) (DELETE_option i k) (db w)).2 w).
Proof.
  intros Hq. constructor; [done|done|done| | | | |apply Hq]; simpl.
  - intros j Hj. by apply other_rows_delete.
  - apply unique_options_delete.
  - by intros ->.
  - apply tail_elem_of.
Qed.

Lemma update_step k v :
  (∀ d, undisturbed w (answered conn (UPDATE_option v i k) d w)) →
  options_step i w
    (answered conn (UPDATE_option v i k)
              (exec (found_rows w) (UPDATE_option v i k) (db w)).2 w).
Proof.
  intros Hq. constructor; [done|done|done| | | | |apply Hq]; simpl.
  - intros j Hj. by apply other_rows_update.
  - apply unique_options_update.
  - by intros ->.
  - apply tail_elem_of.
Qed.

(** An INSERT of a key that is not stored goes through when the slot is
    stored, and is turned down by the foreign key when it is not. *)
Lemma insert_step k v :
  stored_options w i !! k = None →
  existsb (slot_has_id i) (contentslots (db w)) = true →
  (∀ d, undisturbed w (answered conn (INSERT_option i k v) d w)) →
  exec (found_rows w) (INSERT_option i k v) (db w) =
    (Return (mkOk 1 0),
     mkDb (contentslots (db w))
          (contentslot_options (db w) ++ [mkOptionRow i k v])
          (auto_increment (db w)))
  ∧ options_step i w
      (answered conn (INSERT_option i k v)
                (exec (found_rows w) (INSERT_option i k v) (db w)).2 w).
Proof.
  intros Hk Hfk Hq. unfold stored_options in Hk.
  assert (existsb (option_is i k) (contentslot_options (db w)) = false) as E.
  { rewrite slot_options_exists. apply bool_decide_eq_false_2.
    rewrite Hk. by intros [? ?]. }
  simpl. rewrite E, Hfk. split; [done|].
  constructor; [done|done|done| | | | |apply Hq]; simpl.
  - intros j Hj. rewrite List.filter_app. simpl.
    rewrite option_of_slot_false by (simpl; congruence). by rewrite app_nil_r.
  - intros Hu. by apply unique_options_snoc.
  - by intros ->.
  - apply tail_elem_of.
Qed.

Lemma insert_refused k v :
  stored_options w i !! k = None →
  existsb (slot_has_id i) (contentslots (db w)) = false →
  exec (found_rows w) (INSERT_option i k v) (db w) =
    (Throw (Storage er_no_referenced_row), db w).
Proof.
  intros Hk Hfk. unfold stored_options in Hk.
  assert (existsb (option_is i k) (contentslot_options (db w)) = false) as E.
  { rewrite slot_options_exists. apply bool_decide_eq_false_2.
    rewrite Hk. by intros [? ?]. }
  simpl. by rewrite E, Hfk.
Qed.
End option_statements.


(** ** The two loops of [setOptionsForContentSlot] *)

Section synchronize.
Context (conn : Conn) (i : Z) (D : gmap string string).

Lemma remove_stale_loop (l : list string) b w :
  match for_of l (remove_stale conn i D) b w with
  | (Return b', w') =>
      options_step i w w'
      ∧ (∀ k, stored_options w' i !! k =
                if bool_decide (k ∈ l ∧ D !! k = None) then None
                else stored_options w i !! k)
      ∧ (∀ r, r ∈ contentslot_options (db w') →
              r ∈ contentslot_options (db w)
              ∧ ¬ (contentslot_id r = i ∧ name r ∈ l ∧ D !! name r = None))
      ∧ log w' = log w ++ List.map (λ k, (conn, DELETE_option i k))
                            (List.filter (λ k, negb (hasOwnProperty D k)) l)
      ∧ b' = b || existsb (λ k, negb (hasOwnProperty D k)) l
  | (Throw e, w') => raised e w w'
  end.
Proof.
  revert b w. induction l as [|k l IH]; intros b w.
  - simpl. split_and!.
    + apply options_step_refl.
    + done.
    + intros r Hr. split; [done|]. intros (_ & ?%elem_of_nil & _). done.
    + by rewrite app_nil_r.
    + by rewrite orb_false_r.
  - simpl. rewrite bind_eq. unfold remove_stale at 1.
    destruct (hasOwnProperty D k) eqn:HD; simpl.
    + specialize (IH b w).
      destruct (for_of l (remove_stale conn i D) b w) as [[b'|e] w']; [|done].
      destruct IH as (Hs & Hv & Hr & Hl & Hb).
      apply bool_decide_eq_true in HD as [x HD]. split_and!; try done.
      * intros k'. rewrite Hv. erewrite bool_decide_ext; [done|].
        rewrite elem_of_cons. split; [tauto|].
        intros [[->|?] ?]; [congruence|done].
      * intros r Hin. destruct (Hr r Hin) as [? Hn]. split; [done|].
        intros (? & Hk & ?). apply Hn. split_and!; try done.
        apply elem_of_cons in Hk as [Hk|]; [|done]. congruence.
    + rewrite bind_eq.
      destruct (query_run conn (DELETE_option i k) w) as [(e & F & ->)| [Hq ->]];
        [done|].
      pose proof (delete_step conn i w k Hq) as Hstep.
      set (w1 := answered conn (DELETE_option i k)
                   (exec (found_rows w) (DELETE_option i k) (db w)).2 w) in *.
      simpl. specialize (IH true w1).
      destruct (for_of l (remove_stale conn i D) true w1) as [[b'|e] w'].
      2:{ eapply raised_after; [apply (step_run _ _ _ Hstep)|done]. }
      destruct IH as (Hs & Hv & Hr & Hl & Hb).
      apply bool_decide_eq_false in HD.
      assert (D !! k = None) as HDk.
      { destruct (D !! k) eqn:?; [|done]. exfalso. apply HD. eauto. }
      split_and!.
      * by eapply options_step_trans.
      * intros k'. rewrite Hv. unfold stored_options, w1. simpl.
        rewrite slot_options_delete.
        rewrite (bool_decide_eq_true_2 (i = i)) by done.
        destruct (decide (k' = k)) as [->|Hne].
        -- rewrite lookup_delete_eq.
           rewrite (bool_decide_eq_true_2 (k ∈ k :: l ∧ _)).
           ++ by case_bool_decide.
           ++ split; [apply list_elem_of_here|done].
        -- rewrite lookup_delete_ne by done.
           erewrite bool_decide_ext; [done|].
           rewrite elem_of_cons. tauto.
      * intros r Hin. destruct (Hr r Hin) as [Hin1 Hn].
        unfold w1 in Hin1. simpl in Hin1.
        apply list_elem_of_In, filter_In in Hin1 as [Hin1 Hneg].
        split; [by apply list_elem_of_In|].
        intros (Hi & Hk & HDr). apply elem_of_cons in Hk as [Hk|Hk].
        -- apply negb_true_iff, not_true_iff_false in Hneg.
           apply Hneg, option_is_spec. done.
        -- apply Hn. done.
      * rewrite Hl. unfold w1. simpl. by rewrite <- app_assoc.
      * rewrite Hb. by rewrite orb_true_r.
Qed.

Lemma write_entry_loop (E : gmap string string) (l : list (string * string)) b w :
  NoDup l.*1 →
  (∀ k, k ∈ l.*1 → stored_options w i !! k = E !! k) →
  match for_of l (write_entry conn i E) b w with
  | (Return b', w') =>
      options_step i w w'
      ∧ stored_options w' i = list_to_map l ∪ stored_options w i
      ∧ (∀ r, r ∈ contentslot_options (db w') → contentslot_id r = i →
              (r ∈ contentslot_options (db w) ∧ name r ∉ l.*1)
              ∨ (name r, value r) ∈ l)
      ∧ log w' = log w ++ List.map (λ kv, (conn, write_stmt i E kv)) l
      ∧ (unique_options (contentslot_options (db w)) →
         b' = b || existsb (entry_counts (found_rows w) E) l)
      ∧ (b = true ∨ (∃ kv, kv ∈ l ∧ Map_has E kv.1 = false) → b' = true)
  | (Throw e, w') =>
      raised e w w'
      ∨ (refused i e w w' ∧ ∃ kv, kv ∈ l ∧ Map_has E kv.1 = false)
  end.
Proof.
  revert b w. induction l as [|[k v] l IH]; intros b w Hnd Hpre.
  - simpl. split_and!.
    + apply options_step_refl.
    + by rewrite (left_id_L ∅ (∪)).
    + intros r Hr _. left. split; [done|]. apply not_elem_of_nil.
    + by rewrite app_nil_r.
    + intros _. by rewrite orb_false_r.
    + intros [?|(kv & ?%elem_of_nil & _)]; done.
  - apply NoDup_cons in Hnd as [Hk Hnd]. simpl in Hk.
    assert (stored_options w i !! k = E !! k) as Hwk.
    { apply Hpre. simpl. apply list_elem_of_here. }
    simpl. rewrite bind_eq. unfold write_entry at 1. simpl.
    destruct (Map_has E k) eqn:HE.
    + (* the key existed: UPDATE *)
      apply bool_decide_eq_true in HE as [v0 HE].
      rewrite bind_eq.
      destruct (query_run conn (UPDATE_option v i k) w) as [(e & F & ->)| [Hq ->]];
        [by left|].
      pose proof (update_step conn i w k v Hq) as Hstep.
      set (w1 := answered conn (UPDATE_option v i k)
                   (exec (found_rows w) (UPDATE_option v i k) (db w)).2 w) in *.
      assert (stored_options w1 i = <[k := v]> (stored_options w i)) as Hw1.
      { unfold stored_options, w1. simpl. rewrite slot_options_update.
        rewrite (bool_decide_eq_true_2 (i = i)) by done.
        fold (stored_options w i). apply map_eq. intros k'.
        rewrite lookup_alter, lookup_insert.
        case_decide; [|done]. subst k'. by rewrite Hwk, HE. }
      simpl.
      set (b1 := if bool_decide _ then true else b).
      specialize (IH b1 w1 Hnd).
      destruct (for_of l (write_entry conn i E) b1 w1) as [[b'|e] w'].
      2:{ destruct IH as [IH|[IH (kv & Hkv & Hnew)]].
          - intros k' Hk'. rewrite Hw1, lookup_insert_ne.
            + apply Hpre. simpl. by apply list_elem_of_further.
            + by intros ->.
          - left. by eapply raised_after; [apply (step_run _ _ _ Hstep)|].
          - right. split; [by eapply refused_after|].
            exists kv. split; [by apply list_elem_of_further|done]. }
      destruct IH as (Hs & Hv & Hr & Hl & Hb & Hm).
      { intros k' Hk'. rewrite Hw1, lookup_insert_ne.
        - apply Hpre. simpl. by apply list_elem_of_further.
        - by intros ->. }
      split_and!.
      * by eapply options_step_trans.
      * rewrite Hv, Hw1. rewrite <- insert_union_r, insert_union_l; [done|].
        by apply not_elem_of_list_to_map_1.
      * intros r Hin Hi. destruct (Hr r Hin Hi) as [[Hin1 Hn]|Hin1].
        2:{ right. by apply list_elem_of_further. }
        unfold w1 in Hin1. simpl in Hin1.
        apply list_elem_of_In, in_map_iff in Hin1 as (r0 & Hr0 & Hin0).
        destruct (option_is i k r0) eqn:Eis.
        -- right. subst r. simpl. apply option_is_spec in Eis as [_ ->].
           apply list_elem_of_here.
        -- left. subst r0. split; [by apply list_elem_of_In|].
           simpl. apply not_elem_of_cons. split; [|done]. intros Hname.
           apply not_true_iff_false in Eis. apply Eis, option_is_spec. done.
      * rewrite Hl. unfold w1 at 1. simpl. rewrite <- app_assoc. simpl.
        assert (write_stmt i E (k, v) = UPDATE_option v i k) as ->; [|done].
        unfold write_stmt, Map_has. simpl.
        by rewrite bool_decide_eq_true_2 by eauto.
      * intros Hu. rewrite Hb by by apply Hstep.
        change (found_rows w1) with (found_rows w).
        rewrite orb_assoc. f_equal. unfold b1, entry_counts. simpl.
        destruct (found_rows w) eqn:Hfr.
        { rewrite found_rows_unique by done.
          fold (stored_options w i). rewrite Hwk, HE.
          rewrite (bool_decide_eq_true_2 (is_Some _)) by eauto.
          simpl. by rewrite orb_true_r. }
        simpl. rewrite changed_rows_unique by done.
        fold (stored_options w i). rewrite Hwk, HE.
        destruct (decide (v0 = v)) as [->|Hne].
        -- rewrite (bool_decide_eq_true_2 (v = v)) by done.
           rewrite (bool_decide_eq_true_2 (Some v = Some v)) by done.
           simpl. by rewrite orb_false_r.
        -- rewrite (bool_decide_eq_false_2 (v0 = v)) by done.
           rewrite (bool_decide_eq_false_2 (Some v0 = Some v)) by congruence.
           simpl. by rewrite orb_true_r.
      * intros [->|(kv & Hkv & Hnew)]; apply Hm.
        -- left. unfold b1. by destruct (bool_decide _).
        -- right. exists kv. split; [|done].
           apply elem_of_cons in Hkv as [->|]; [|done]. simpl in Hnew.
           unfold Map_has in Hnew. apply bool_decide_eq_false in Hnew.
           exfalso. apply Hnew. eauto.
    + (* a new key: INSERT *)
      apply bool_decide_eq_false in HE.
      assert (E !! k = None) as HEk.
      { destruct (E !! k) eqn:?; [|done]. exfalso. apply HE. eauto. }
      rewrite bind_eq.
      destruct (query_run conn (INSERT_option i k v) w) as [(e & F & ->)| [Hq ->]];
        [by left|].
      destruct (existsb (slot_has_id i) (contentslots (db w))) eqn:Hfk.
      2:{ rewrite insert_refused by (done || congruence). cbn [fst snd].
          right. split; [split_and!; [done|apply (Hq _)|done]|].
          exists (k, v). split; [apply list_elem_of_here|].
          by apply bool_decide_eq_false. }
      destruct (insert_step conn i w k v) as [Hex Hstep]; [congruence|done|done|].
      rewrite Hex in Hstep |- *. cbn [fst snd] in Hstep |- *.
      set (w1 := answered conn (INSERT_option i k v) _ w) in *.
      assert (stored_options w1 i = <[k := v]> (stored_options w i)) as Hw1.
      { unfold stored_options, w1. simpl.
        rewrite slot_options_snoc. simpl.
        by rewrite (bool_decide_eq_true_2 (i = i)) by done. }
      simpl.
      specialize (IH true w1 Hnd).
      destruct (for_of l (write_entry conn i E) true w1) as [[b'|e] w'].
      2:{ destruct IH as [IH|[IH (kv & Hkv & Hnew)]].
          - intros k' Hk'. rewrite Hw1, lookup_insert_ne.
            + apply Hpre. simpl. by apply list_elem_of_further.
            + by intros ->.
          - left. by eapply raised_after; [apply (step_run _ _ _ Hstep)|].
          - right. split; [by eapply refused_after|].
            exists kv. split; [by apply list_elem_of_further|done]. }
      destruct IH as (Hs & Hv & Hr & Hl & Hb & Hm).
      { intros k' Hk'. rewrite Hw1, lookup_insert_ne.
        - apply Hpre. simpl. by apply list_elem_of_further.
        - by intros ->. }
      split_and!.
      * by eapply options_step_trans.
      * rewrite Hv, Hw1. rewrite <- insert_union_r, insert_union_l; [done|].
        by apply not_elem_of_list_to_map_1.
      * intros r Hin Hi. destruct (Hr r Hin Hi) as [[Hin1 Hn]|Hin1].
        2:{ right. by apply list_elem_of_further. }
        unfold w1 in Hin1. simpl in Hin1.
        apply elem_of_app in Hin1 as [Hin1|Hin1].
        -- left. split; [done|]. simpl. apply not_elem_of_cons.
           split; [|done]. intros Hname.
           assert (existsb (option_is i k) (contentslot_options (db w)) = true) as Hx.
           { apply existsb_exists. exists r.
             split; [by apply list_elem_of_In|]. by apply option_is_spec. }
           rewrite slot_options_exists in Hx. apply bool_decide_eq_true in Hx.
           fold (stored_options w i) in Hx. rewrite Hwk, HEk in Hx.
           by destruct Hx.
        -- right. apply list_elem_of_singleton in Hin1. subst r. simpl.
           apply list_elem_of_here.
      * rewrite Hl. unfold w1 at 1. simpl. rewrite <- app_assoc. simpl.
        assert (write_stmt i E (k, v) = INSERT_option i k v) as ->; [|done].
        unfold write_stmt, Map_has. simpl.
        by rewrite bool_decide_eq_false_2 by done.
      * intros Hu. rewrite Hb by by apply Hstep.
        unfold entry_counts. simpl. rewrite HEk.
        rewrite (bool_decide_eq_false_2 (None = Some v)) by done.
        simpl. by rewrite !orb_true_r.
      * intros _. apply Hm. by left.
Qed.

Lemma Map_keys_spec (m : gmap string string) k :
  k ∈ Map_keys m ↔ is_Some (m !! k).
Proof.
  unfold Map_keys. rewrite list_elem_of_fmap. split.
  - intros ([k' v] & -> & Hin). apply elem_of_map_to_list in Hin. eauto.
  - intros [v Hv]. exists (k, v). split; [done|]. by apply elem_of_map_to_list.
Qed.

Lemma Object_entries_keys k :
  k ∈ (Object_entries D).*1 ↔ is_Some (D !! k).
Proof. apply Map_keys_spec. Qed.

Lemma synchronize_spec w :
  match setOptionsForContentSlot conn i D w with
  | (Return b, w') =>
      options_step i w w'
      ∧ stored_options w' i = D
      ∧ (∀ r, r ∈ contentslot_options (db w') → contentslot_id r = i →
              D !! name r = Some (value r))
      ∧ log w' = log w ++ synchronize_log conn i D (stored_options w i)
      ∧ (unique_options (contentslot_options (db w)) →
         b = options_changed (found_rows w) (stored_options w i) D)
      ∧ ((∃ k, stored_options w i !! k = None ∧ is_Some (D !! k)) → b = true)
  | (Throw e, w') =>
      raised e w w'
      ∨ (refused i e w w'
         ∧ ∃ k, stored_options w i !! k = None ∧ is_Some (D !! k))
  end.
Proof.
  unfold setOptionsForContentSlot, getOptionsForContentSlot.
  rewrite !bind_eq.
  destruct (query_run conn (SELECT_options i) w) as [(e & F & ->)| [Hq ->]];
    [by left|].
  cbn [exec fst snd]. simpl.
  set (w0 := answered conn (SELECT_options i) (db w) w).
  set (E := rows_to_map _).
  assert (E = stored_options w i) as HE by done.
  assert (options_step i w w0) as H0.
  { constructor; [done|done|done|done|done| | |apply Hq]; simpl;
      [by intros ->|apply tail_elem_of]. }
  rewrite bind_eq.
  pose proof (remove_stale_loop (Map_keys E) false w0) as L1.
  destruct (for_of (Map_keys E) (remove_stale conn i D) false w0)
    as [[b1|e] w1].
  2:{ left. by eapply raised_after; [apply (step_run _ _ _ H0)|]. }
  destruct L1 as (Hs1 & Hv1 & Hr1 & Hl1 & Hb1).
  assert (∀ k, k ∈ (Object_entries D).*1 → stored_options w1 i !! k = E !! k)
    as Hpre.
  { intros k [x Hx]%Object_entries_keys. rewrite Hv1.
    rewrite bool_decide_eq_false_2; [done|]. intros [_ ?]. congruence. }
  pose proof (write_entry_loop E (Object_entries D) b1 w1
                (NoDup_fst_map_to_list D) Hpre) as L2.
  destruct (for_of (Object_entries D) (write_entry conn i E) b1 w1)
    as [[b2|e] w2].
  2:{ assert (options_step i w w1) as H01 by by eapply options_step_trans.
      destruct L2 as [L2|[L2 ([k x] & Hkv & Hnew)]].
      - left. by eapply raised_after; [apply (step_run _ _ _ H01)|].
      - right. split; [by eapply refused_after|]. exists k.
        apply elem_of_map_to_list in Hkv. split; [|eauto].
        unfold Map_has in Hnew. simpl in Hnew.
        apply bool_decide_eq_false in Hnew. rewrite <- HE.
        destruct (E !! k) eqn:HEk; [|done]. exfalso. apply Hnew. eauto. }
  destruct L2 as (Hs2 & Hv2 & Hr2 & Hl2 & Hb2 & Hm2).
  split_and!.
  - eapply options_step_trans; [done|]. by eapply options_step_trans.
  - rewrite Hv2. unfold Object_entries. rewrite list_to_map_to_list.
    apply map_eq. intros k. rewrite lookup_union.
    destruct (D !! k) as [x|] eqn:HD.
    + by destruct (stored_options w1 i !! k).
    + rewrite Hv1. rewrite (left_id_L None _).
      destruct (bool_decide_reflect (k ∈ Map_keys E ∧ D !! k = None))
        as [_|Hn]; [done|].
      destruct (E !! k) eqn:HEk; [|done].
      exfalso. apply Hn. split; [|done]. apply Map_keys_spec. eauto.
  - intros r Hin Hi. destruct (Hr2 r Hin Hi) as [[Hin1 Hn]|Hin1].
    2:{ by apply elem_of_map_to_list in Hin1. }
    exfalso. destruct (Hr1 r Hin1) as [Hin0 Hno]. apply Hno.
    split; [done|]. split.
    + apply Map_keys_spec. rewrite HE. unfold stored_options.
      assert (existsb (option_is i (name r)) (contentslot_options (db w)) = true)
        as Hx.
      { apply existsb_exists. exists r. split; [by apply list_elem_of_In|].
        by apply option_is_spec. }
      rewrite slot_options_exists in Hx. by apply bool_decide_eq_true in Hx.
    + destruct (D !! name r) eqn:HD; [|done].
      exfalso. apply Hn, Object_entries_keys. eauto.
  - rewrite Hl2, Hl1. unfold synchronize_log, w0. simpl.
    rewrite <- !app_assoc. done.
  - intros Hu.
    assert (unique_options (contentslot_options (db w1))) as Hu1.
    { by apply Hs1. }
    rewrite (Hb2 Hu1), Hb1. rewrite (step_found_rows _ _ _ Hs1). done.
  - intros (k & HS & [x HD]). apply Hm2. right. exists (k, x). split.
    + by apply elem_of_map_to_list.
    + unfold Map_has. simpl. apply bool_decide_eq_false_2.
      rewrite HE, HS. by intros [? ?].
Qed.

(** For an id without a slot row and without option rows, and a map that
    is not empty, the synchronizer reads, finds nothing, and issues the
    INSERT for its first entry, which the foreign key turns down: it never
    completes and stores nothing. *)
Lemma synchronize_missing w :
  existsb (slot_has_id i) (contentslots (db w)) = false →
  stored_options w i = ∅ →
  D ≠ ∅ →
  ∃ e w', setOptionsForContentSlot conn i D w = (Throw e, w')
          ∧ db w' = db w
          ∧ (raised e w w'
             ∨ (refused i e w w'
                ∧ ∃ k x, D !! k = Some x
                         ∧ log w' = log w ++ [(conn, SELECT_options i);
                                              (conn, INSERT_option i k x)])).
Proof.
  intros Hfk Hnone HD.
  unfold setOptionsForContentSlot, getOptionsForContentSlot. rewrite !bind_eq.
  destruct (query_run conn (SELECT_options i) w) as [(e & He & ->)|[Hq ->]].
  { eexists e, _. split; [done|]. split; [done|]. by left. }
  cbn [exec fst snd]. simpl.
  change (rows_to_map (List.filter (option_of_slot i) (contentslot_options (db w))))
    with (stored_options w i).
  rewrite Hnone.
  set (w0 := answered conn (SELECT_options i) (db w) w).
  assert (Map_keys ∅ = []) as -> by (unfold Map_keys; by rewrite map_to_list_empty).
  rewrite bind_eq. simpl. unfold Object_entries.
  destruct (map_to_list D) as [|[k x] l] eqn:HDl.
  { by apply map_to_list_empty_iff in HDl. }
  assert (D !! k = Some x) as Hkx.
  { apply elem_of_map_to_list. rewrite HDl. apply list_elem_of_here. }
  simpl. rewrite bind_eq. unfold write_entry at 1. simpl.
  assert (Map_has ∅ k = false) as ->.
  { apply bool_decide_eq_false_2. rewrite lookup_empty. by intros [? ?]. }
  rewrite bind_eq.
  destruct (query_run conn (INSERT_option i k x) w0) as [(e & He & ->)|[Hq0 ->]].
  { eexists e, _. split; [done|]. split; [done|]. left.
    eapply raised_after; [apply (Hq (db w))|apply He]. }
  rewrite (insert_refused i w0 k x);
    [|change (stored_options w i !! k = None); by rewrite Hnone|done].
  cbn [fst snd]. eexists _, _. split; [done|]. split; [done|]. right.
  split.
  - split_and!; [done| |done].
    eapply undisturbed_trans; [apply (Hq (db w))|apply (Hq0 (db w))].
  - exists k, x. split; [done|]. simpl. by rewrite <- app_assoc.
Qed.
End synchronize.

(** When UPDATE reports changed rows, the flag is clear exactly for equal
    maps. *)
Lemma options_changed_changed_rows (E D : gmap string string) :
  options_changed false E D = false ↔ E = D.
Proof.
  unfold options_changed, entry_counts. rewrite orb_false_iff. simpl. split.
  - intros [Hd Hw]. apply map_eq. intros k.
    destruct (D !! k) as [x|] eqn:HD.
    + assert (negb (bool_decide (E !! (k, x).1 = Some (k, x).2)) = false) as Hx.
      { eapply not_true_iff_false. intros Hx.
        apply not_true_iff_false in Hw. apply Hw, existsb_exists.
        exists (k, x). split; [|done].
        by apply list_elem_of_In, elem_of_map_to_list. }
      apply negb_false_iff, bool_decide_eq_true in Hx. done.
    + destruct (E !! k) as [y|] eqn:HEk; [|done]. exfalso.
      apply not_true_iff_false in Hd. apply Hd, existsb_exists.
      exists k. split.
      * apply list_elem_of_In, Map_keys_spec. eauto.
      * apply negb_true_iff, bool_decide_eq_false_2.
        rewrite HD. by intros [? ?].
  - intros ->. split; apply not_true_iff_false.
    + intros (k & Hk & Hx)%existsb_exists.
      apply list_elem_of_In, Map_keys_spec in Hk.
      apply negb_true_iff, bool_decide_eq_false in Hx. done.
    + intros ([k x] & Hk & Hx)%existsb_exists.
      apply list_elem_of_In, elem_of_map_to_list in Hk.
      apply negb_true_iff, bool_decide_eq_false in Hx. done.
Qed.

(** When UPDATE reports matched rows, every desired entry counts: the flag
    is clear only when nothing is stored and nothing is desired. *)
Lemma options_changed_found_rows (E D : gmap string string) :
  options_changed true E D = false ↔ E = ∅ ∧ D = ∅.
Proof.
  unfold options_changed, entry_counts. rewrite orb_false_iff. simpl. split.
  - intros [Hd Hw].
    assert (D = ∅) as ->.
    { apply map_to_list_empty_iff. unfold Object_entries in Hw.
      by destruct (map_to_list D). }
    split; [|done]. apply map_empty. intros k.
    destruct (E !! k) as [y|] eqn:HEk; [|done]. exfalso.
    apply not_true_iff_false in Hd. apply Hd, existsb_exists.
    exists k. split.
    + apply list_elem_of_In, Map_keys_spec. eauto.
    + apply negb_true_iff, bool_decide_eq_false_2.
      rewrite lookup_empty. by intros [? ?].
  - intros [-> ->]. unfold Map_keys, Object_entries.
    by rewrite map_to_list_empty.
Qed.

(** ** The unique keys as invariants of the engine *)

Lemma delete_first_sublist i rows : sublist (delete_first i rows) rows.
Proof.
  induction rows as [|r rows IH]; [done|]. simpl.
  destruct (slot_has_id i r); [by apply sublist_cons|by apply sublist_skip].
Qed.

Lemma filter_sublist {A} (p : A → bool) (l : list A) :
  sublist (List.filter p l) l.
Proof.
  induction l as [|x l IH]; [done|]. simpl.
  destruct (p x); [by apply sublist_skip|by apply sublist_cons].
Qed.

(** No statement breaks the unique key of the option table or the primary
    key of the slot table: both hold in every database the engine reaches
    from one where they hold, the empty one to begin with. *)
Lemma exec_keeps_keys (found_rows : bool) (s : Stmt) (d : Db) :
  unique_slots (contentslots d) →
  unique_options (contentslot_options d) →
  unique_slots (contentslots (exec found_rows s d).2)
  ∧ unique_options (contentslot_options (exec found_rows s d).2).
Proof.
  intros Hs Ho. destruct s as [v ct cs rs ce re|id0| | |v ct cs rs ce re id0| | |
                               id0 k|x id0 k|id0 k x]; simpl; try done.
  - destruct (existsb _ _) eqn:E; [done|]. simpl. split; [|done].
    unfold unique_slots in *. rewrite List.map_app. simpl.
    apply NoDup_app. split_and!; [done| |apply NoDup_singleton].
    intros x Hx ->%list_elem_of_singleton.
    apply list_elem_of_In, in_map_iff in Hx as (r & Hr & Hin).
    apply not_true_iff_false in E. apply E, existsb_exists.
    exists r. split; [done|]. by apply bool_decide_eq_true.
  - split.
    + unfold unique_slots in *.
      assert (sublist (List.map row_id (delete_first id0 (contentslots d)))
                      (List.map row_id (contentslots d))) as Hsub.
      { apply (fmap_sublist row_id), delete_first_sublist. }
      exact (sublist_NoDup _ _ Hs Hsub).
    + destruct (existsb _ _); [|done]. unfold unique_options in *.
      assert (sublist
                (List.map (λ r, (contentslot_id r, name r))
                   (List.filter (λ r, negb (option_of_slot id0 r))
                      (contentslot_options d)))
                (List.map (λ r, (contentslot_id r, name r))
                   (contentslot_options d))) as Hsub.
      { apply (fmap_sublist (λ r, (contentslot_id r, name r))).
        apply filter_sublist. }
      exact (sublist_NoDup _ _ Ho Hsub).
  - split; [|done]. unfold unique_slots in *. rewrite List.map_map.
    erewrite map_ext; [done|]. intros r. simpl. by destruct (slot_has_id _ r).
  - split; [done|]. by apply unique_options_delete.
  - split; [done|]. by apply unique_options_update.
  - destruct (existsb _ _) eqn:E; [done|].
    destruct (existsb (slot_has_id id0) (contentslots d)); [|done].
    simpl. split; [done|]. by apply unique_options_snoc.
Qed.

(** ** Flattening an options map into an object *)

Lemma set_property_fold (l : list (string * string)) (acc : gmap string string)
    (k : string) :
  NoDup l.*1 →
  foldl (λ o kv, set_property o kv.1 kv.2) acc l !! k =
    if decide (k = "__proto__"%string) then acc !! k
    else match (list_to_map l : gmap string string) !! k with
         | Some x => Some x
         | None => acc !! k
         end.
Proof.
  revert acc. induction l as [|[k0 x0] l IH]; intros acc Hnd.
  - simpl. rewrite lookup_empty. by case_decide.
  - apply NoDup_cons in Hnd as [Hk0 Hnd]. simpl in Hk0.
    simpl. rewrite IH by done. unfold set_property. simpl.
    case_decide as Hk; [by case_bool_decide; [|rewrite lookup_insert_ne by congruence]|].
    rewrite (lookup_insert (list_to_map l)).
    destruct (decide (k0 = k)) as [->|Hne].
    + rewrite not_elem_of_list_to_map_1 by done.
      rewrite bool_decide_eq_false_2 by done. by rewrite lookup_insert_eq.
    + destruct (list_to_map l !! k); [done|].
      case_bool_decide; [done|]. by rewrite lookup_insert_ne.
Qed.

(** The object carries every option of the map but one named [__proto__]. *)
Lemma flatten_eq (m : gmap string string) :
  flatten m = delete "__proto__"%string m.
Proof.
  apply map_eq. intros k. unfold flatten.
  rewrite set_property_fold by apply NoDup_fst_map_to_list.
  rewrite list_to_map_to_list, lookup_empty, lookup_delete.
  case_decide; [by rewrite decide_True|].
  rewrite decide_False by done. by destruct (m !! k).
Qed.

(** ** Connections: acquisition, scope and release *)

Lemma getConnection_cases (w : World) :
  (∃ e w', scheduled e w ∧ getConnection w = (Throw e, w')
           ∧ leased w' = leased w ∧ db w' = db w ∧ log w' = log w)
  ∨ getConnection w = (Return (acquired w), connected w).
Proof.
  unfold getConnection, connected, scheduled.
  destruct (faults w) as [|[e|] fs] eqn:F; simpl; [by right| |by right].
  left. eexists (Storage e), _. split_and!; try done.
  exists e. split; [done|]. apply list_elem_of_here.
Qed.

Lemma getConnection_run (w : World) :
  (∃ e w', raised e w w' ∧ getConnection w = (Throw e, w')
           ∧ leased w' = leased w ∧ db w' = db w ∧ log w' = log w)
  ∨ (undisturbed w (connected w)
     ∧ getConnection w = (Return (acquired w), connected w)).
Proof.
  unfold getConnection, connected, raised, undisturbed.
  destruct (faults w) as [|[e|] fs] eqn:F; simpl.
  - right. split; [by exists 0%nat|done].
  - left. eexists (Storage e), _. split_and!; try done. by exists 0%nat, e.
  - right. split; [by exists 1%nat|done].
Qed.

Lemma neutral_ret {A} (a : A) : pool_neutral (mret a : M World A).
Proof. done. Qed.

Lemma neutral_throw {A} (e : Exn) : pool_neutral (throw e : M World A).
Proof. done. Qed.

Lemma neutral_bind {A B} (m : M World A) (k : A → M World B) :
  pool_neutral m → (∀ a, pool_neutral (k a)) → pool_neutral (m ≫= k).
Proof.
  intros Hm Hk w. rewrite bind_eq. specialize (Hm w).
  destruct (m w) as [[a|e] w1]; [|done].
  specialize (Hk a w1). simpl in *. destruct Hm, Hk. split; congruence.
Qed.

Lemma neutral_for_of {A X} (xs : list X) (body : X → A → M World A) (a : A) :
  (∀ x a', pool_neutral (body x a')) → pool_neutral (for_of xs body a).
Proof.
  intros Hb. revert a. induction xs as [|x xs IH]; intros a; [done|].
  simpl. apply neutral_bind; auto.
Qed.

Lemma keeps_ret {A} (a : A) : keeps_conn (mret a : M Frame A).
Proof. done. Qed.

Lemma keeps_throw {A} (e : Exn) : keeps_conn (throw e : M Frame A).
Proof. done. Qed.

Lemma keeps_lift {A} (m : M World A) : pool_neutral m → keeps_conn (lift m).
Proof.
  intros Hm [c w]. unfold lift. simpl. specialize (Hm w).
  destruct (m w) as [r w1]. simpl in *. by destruct Hm.
Qed.

Lemma keeps_bind {A B} (m : M Frame A) (k : A → M Frame B) :
  keeps_conn m → (∀ a, keeps_conn (k a)) → keeps_conn (m ≫= k).
Proof.
  intros Hm Hk f. rewrite bind_eq. specialize (Hm f).
  destruct (m f) as [[a|e] f1]; [|done].
  specialize (Hk a f1). simpl in *. destruct Hm, Hk. split; congruence.
Qed.

Lemma keeps_array_map {A B} (g : A → M Frame B) (xs : list A) :
  (∀ x, keeps_conn (g x)) → keeps_conn (array_map g xs).
Proof.
  intros Hg. induction xs as [|x xs IH]; [done|].
  simpl. apply keeps_bind; [done|]. intros y.
  apply keeps_bind; [done|]. intros ys. done.
Qed.

(** The opening of every [try] block, followed by code that keeps
    [conn]. *)
Lemma scoped_acquire {A} (rest : Conn → M Frame A) :
  (∀ c, keeps_conn (rest c)) →
  scoped (conn ← lift getConnection; assign_conn conn;; rest conn).
Proof.
  intros Hk w. rewrite bind_eq. unfold lift. simpl.
  destruct (getConnection_cases w) as [(e & w' & _ & -> & Hl & _)| ->];
    [done|].
  rewrite bind_eq. simpl.
  destruct (Hk (acquired w) (@Some Conn (acquired w), connected w)) as [Hc Hl].
  destruct (rest (acquired w) (@Some Conn (acquired w), connected w))
    as [r [c w']].
  simpl in *. by subst c.
Qed.

Lemma scoped_catch {A} (m : M Frame A) (handler : Exn → M Frame A) :
  scoped m → (∀ e, keeps_conn (handler e)) → scoped (try_catch m handler).
Proof.
  intros Hm Hh w. unfold try_catch. specialize (Hm w).
  destruct (m (None, w)) as [[a|e] f]; [done|].
  destruct (Hh e f) as [Hc Hl].
  destruct (handler e f) as [r [c w']]. destruct f as [c0 w0].
  simpl in *. subst c. destruct c0; congruence.
Qed.

(** What the [finally] block and the return to the caller add to a [try]
    block: the outcome stands, the connection held is released. *)
Lemma call_finally {A} (m : M Frame A) (w : World) :
  call (try_finally m release_if_conn) w =
    ((m (None, w)).1,
     match (m (None, w)).2 with
     | (Some _, w') => released w'
     | (None, w') => w'
     end).
Proof.
  unfold call, try_finally, release_if_conn.
  destruct (m (None, w)) as [r [[c|] w']]; done.
Qed.

Lemma scoped_balanced {A} (m : M Frame A) (w : World) :
  scoped m → leased (call (try_finally m release_if_conn) w).2 = leased w.
Proof.
  intros Hm. rewrite call_finally. specialize (Hm w).
  destruct (m (None, w)) as [r [[c|] w']]; simpl in *; [|done].
  by rewrite Hm.
Qed.

Lemma neutral_query conn s : pool_neutral (query conn s).
Proof.
  intros w. destruct (query_cases conn s w) as [(e & _ & ->)| ->]; done.
Qed.

Lemma neutral_getOptionsForContentSlot conn i :
  pool_neutral (getOptionsForContentSlot conn i).
Proof.
  apply neutral_bind; [apply (neutral_query conn (SELECT_options i))|].
  intros; apply neutral_ret.
Qed.

Lemma neutral_getOptionsForContentSlots conn ids :
  pool_neutral (getOptionsForContentSlots conn ids).
Proof.
  apply neutral_bind; [apply (neutral_query conn (SELECT_options_in ids))|].
  intros rows. apply neutral_for_of. intros row m. unfold fill_options.
  destruct (m !! contentslot_id row); [apply neutral_ret|apply neutral_throw].
Qed.

Lemma neutral_setOptionsForContentSlot conn i D :
  pool_neutral (setOptionsForContentSlot conn i D).
Proof.
  apply neutral_bind; [apply neutral_getOptionsForContentSlot|]. intros E.
  apply neutral_bind.
  - apply neutral_for_of. intros k b. unfold remove_stale.
    destruct (negb (hasOwnProperty D k)); [|apply neutral_ret].
    apply neutral_bind; [apply (neutral_query conn (DELETE_option i k))|].
    intros; apply neutral_ret.
  - intros b. apply neutral_for_of. intros kv b'. unfold write_entry.
    destruct (Map_has E kv.1).
    + apply neutral_bind;
        [apply (neutral_query conn (UPDATE_option kv.2 i kv.1))|].
      intros; apply neutral_ret.
    + apply neutral_bind;
        [apply (neutral_query conn (INSERT_option i kv.1 kv.2))|].
      intros; apply neutral_ret.
Qed.

Lemma keeps_rowToObjectWithOptions row o :
  keeps_conn (rowToObjectWithOptions row o : M Frame ContentSlot).
Proof. by destruct o. Qed.

Ltac keeps_step :=
  first
    [ apply keeps_ret
    | apply keeps_throw
    | apply keeps_rowToObjectWithOptions
    | apply keeps_lift;
      first [ apply neutral_setOptionsForContentSlot
            | apply neutral_getOptionsForContentSlots
            | apply (neutral_query _ (INSERT_slot _ _ _ _ _ _))
            | apply (neutral_query _ (DELETE_slot _))
            | apply (neutral_query _ (SELECT_slots_by_view _))
            | apply (neutral_query _ (SELECT_slots_by_component _))
            | apply (neutral_query _ (UPDATE_slot _ _ _ _ _ _ _)) ]
    | apply keeps_array_map; intros
    | apply keeps_bind; [|intros] ].

Lemma scoped_createContentSlot_try ct v cs rs ce re D :
  scoped (createContentSlot_try ct v cs rs ce re D).
Proof.
  unfold createContentSlot_try.
  apply (scoped_acquire (λ conn, _)). intros c. repeat keeps_step.
Qed.

Lemma scoped_deleteOne_try i : scoped (deleteOne_try i).
Proof.
  unfold deleteOne_try.
  apply (scoped_acquire (λ conn, _)). intros c. repeat keeps_step.
Qed.

Lemma scoped_getContentSlotsByViewId_try v :
  scoped (getContentSlotsByViewId_try v).
Proof.
  unfold getContentSlotsByViewId_try.
  apply (scoped_acquire (λ conn, _)). intros c. keeps_step; [keeps_step|].
  case_bool_decide; repeat keeps_step.
Qed.

Lemma scoped_getContentSlotsByComponentType_try ct :
  scoped (getContentSlotsByComponentType_try ct).
Proof.
  unfold getContentSlotsByComponentType_try.
  apply (scoped_acquire (λ conn, _)). intros c. repeat keeps_step.
Qed.

Lemma scoped_updateContentSlot_try i ct v cs rs ce re D :
  scoped (updateContentSlot_try i ct v cs rs ce re D).
Proof.
  unfold updateContentSlot_try.
  apply (scoped_acquire (λ conn, _)). intros c. repeat keeps_step.
Qed.

Lemma keeps_createContentSlot_catch e : keeps_conn (createContentSlot_catch e).
Proof. unfold createContentSlot_catch. case_bool_decide; apply keeps_throw. Qed.

(** ** The methods, one by one *)

Lemma delete_first_length i rows :
  length rows =
    (length (delete_first i rows)
     + (if existsb (slot_has_id i) rows then 1 else 0))%nat.
Proof.
  induction rows as [|r rows IH]; [done|]. simpl.
  destruct (slot_has_id i r); simpl; [lia|]. rewrite IH at 1. lia.
Qed.

Lemma delete_first_absent i rows :
  existsb (slot_has_id i) rows = false → delete_first i rows = rows.
Proof.
  induction rows as [|r rows IH]; [done|]. simpl.
  destruct (slot_has_id i r); simpl; [done|]. intros H. by rewrite IH.
Qed.

Lemma lift_eq {A} (m : M World A) (c : option Conn) (w : World) :
  lift m (c, w) = match m w with (r, w') => (r, (c, w')) end.
Proof. done. Qed.

(** The opening of a [try] block: acquire, assign, go on. *)
Lemma try_open {A} (rest : Conn → M Frame A) (w : World) :
  (conn ← lift getConnection; assign_conn conn;; rest conn) (None, w) =
    match getConnection w with
    | (Return c, w1) => rest c (Some c, w1)
    | (Throw e, w1) => (Throw e, (None, w1))
    end.
Proof.
  rewrite bind_eq, lift_eq. simpl.
  by destruct (getConnection w) as [[c|e] w1].
Qed.

Lemma deleteOne_try_eq i w :
  deleteOne_try i (None, w) =
    match getConnection w with
    | (Return c, w1) =>
        match query c (DELETE_slot i) w1 with
        | (Return result, w2) =>
            (Return (if bool_decide (affectedRows result = 1) then Some i else None),
             (Some c, w2))
        | (Throw e, w2) => (Throw e, (Some c, w2))
        end
    | (Throw e, w1) => (Throw e, (None, w1))
    end.
Proof.
  unfold deleteOne_try. rewrite (try_open (λ conn, _)).
  destruct (getConnection w) as [[c|e] w1]; [|done].
  rewrite bind_eq, lift_eq. simpl.
  by destruct (query c (DELETE_slot i) w1) as [[result|e] w2].
Qed.

Lemma existsb_slot_has_id i rows :
  existsb (slot_has_id i) rows = true ↔ ∃ row, row ∈ rows ∧ row_id row = i.
Proof.
  rewrite existsb_exists. unfold slot_has_id. split.
  - intros (row & Hin & E). exists row.
    split; [by apply list_elem_of_In|by apply bool_decide_eq_true in E].
  - intros (row & Hin & E). exists row.
    split; [by apply list_elem_of_In|by apply bool_decide_eq_true].
Qed.

(** C6. [deleteOne] removes at most one slot row. When it returns, the
    DELETE was executed and the answer is the id exactly when the DELETE
    reported one affected row, which happens exactly when a row with that
    id was stored; otherwise the answer is [None] (JavaScript's [null]), a
    normal return that leaves the table as it was. The method throws only
    when a scheduled storage failure fired, and never changes the database
    then. *)
Theorem deleteOne_spec (i : Z) (w : World) :
  let r := deleteOne i w in
  (length (contentslots (db w)) ≤ S (length (contentslots (db r.2))))%nat
  ∧ match r.1 with
    | Return answer =>
        ∃ pkt,
          exec (found_rows w) (DELETE_slot i) (db w) = (Return pkt, db r.2)
          ∧ answer = (if bool_decide (affectedRows pkt = 1) then Some i else None)
          ∧ (affectedRows pkt = 1 ↔
             ∃ row, row ∈ contentslots (db w) ∧ row_id row = i)
          ∧ (affectedRows pkt ≠ 1 → db r.2 = db w)
    | Throw e => scheduled e w ∧ db r.2 = db w
    end
  ∧ (faults w = [] → ∃ answer, r.1 = Return answer).
Proof.
  intros r. subst r. unfold deleteOne. rewrite call_finally, deleteOne_try_eq.
  destruct (getConnection_cases w) as [(e & w' & He & -> & _ & Hd & _)| ->].
  { simpl. rewrite Hd. split_and!; [lia|done|done|].
    intros F. by apply scheduled_quiet in He. }
  destruct (query_cases (acquired w) (DELETE_slot i) (connected w))
    as [(e & He & ->)| ->].
  { simpl. split_and!; [lia| |done|].
    - destruct He as (s & -> & Hin). exists s. split; [done|].
      by apply tail_elem_of.
    - intros F. apply scheduled_quiet in He. simpl in He. by rewrite F in He. }
  simpl. split_and!.
  - rewrite (delete_first_length i (contentslots (db w))) at 1.
    destruct (existsb _ _); lia.
  - eexists. split_and!; [done|done| |].
    + simpl. rewrite <- existsb_slot_has_id.
      destruct (existsb _ _); split; done.
    + simpl. destruct (existsb _ _) eqn:E; [done|]. intros _.
      rewrite delete_first_absent by done. by destruct (db w).
  - eauto.
Qed.

(** C9. Every object [getContentSlotsByComponentType] returns has an empty
    [options] map: the method issues its one SELECT on the slot table, no
    statement on the option table on any path, and maps each row through
    [rowToObject], whose [options] is always empty. *)
Theorem getContentSlotsByComponentType_spec (ct : string) (w : World) :
  let r := getContentSlotsByComponentType ct w in
  (∀ row, options (rowToObject row) = ∅)
  ∧ (∃ delta, log r.2 = log w ++ delta
              ∧ Forall (λ e, option_statement e.2 = false) delta)
  ∧ match r.1 with
    | Return objs =>
        objs = List.map rowToObject (slots_of_component ct w)
        ∧ Forall (λ o, options o = ∅) objs
    | Throw e => scheduled e w
    end
  ∧ (faults w = [] → ∃ objs, r.1 = Return objs).
Proof.
  intros r. subst r. unfold getContentSlotsByComponentType.
  rewrite call_finally. unfold getContentSlotsByComponentType_try.
  rewrite (try_open (λ conn, _)). split; [done|].
  destruct (getConnection_cases w) as [(e & w' & He & -> & _ & _ & Hl)| ->].
  { simpl. split_and!; [|done|].
    - exists []. by rewrite Hl, app_nil_r.
    - intros F. by apply scheduled_quiet in He. }
  rewrite bind_eq, lift_eq.
  destruct (query_cases (acquired w) (SELECT_slots_by_component ct) (connected w))
    as [(e & He & ->)| ->]; simpl.
  { split_and!.
    - eexists [_]. split; [done|]. by repeat constructor.
    - destruct He as (s & -> & Hin). exists s. split; [done|].
      by apply tail_elem_of.
    - intros F. apply scheduled_quiet in He. simpl in He. by rewrite F in He. }
  split_and!.
  - eexists [_]. split; [done|]. by repeat constructor.
  - done.
  - apply Forall_forall. intros o Ho.
    apply list_elem_of_In, in_map_iff in Ho as (row & <- & _). done.
  - eauto.
Qed.

(** ** The batch read of options *)

Lemma init_maps_lookup (ids : list Z) (j : Z) :
  foldl (λ (m : gmap Z (gmap string string)) id, <[id := ∅]> m) ∅ ids !! j =
    if bool_decide (j ∈ ids) then Some ∅ else None.
Proof.
  induction ids as [|i ids IH] using rev_ind; [done|].
  rewrite foldl_app. simpl. rewrite lookup_insert, IH.
  destruct (decide (i = j)) as [->|Hne].
  - rewrite bool_decide_eq_true_2; [done|]. apply elem_of_app. right.
    apply list_elem_of_here.
  - erewrite bool_decide_ext; [done|]. rewrite elem_of_app, list_elem_of_singleton.
    split; [tauto|]. intros [?|?]; [done|congruence].
Qed.

Lemma fill_options_loop {S} (rows : list OptionRow)
    (m : gmap Z (gmap string string)) (s : S) :
  (∀ r, r ∈ rows → is_Some (m !! contentslot_id r)) →
  ∃ m', for_of rows fill_options m s = (Return m', s)
        ∧ ∀ j, m' !! j =
                 (λ inner, foldl (λ a r, <[name r := value r]> a) inner
                                 (List.filter (option_of_slot j) rows))
                 <$> m !! j.
Proof.
  revert m. induction rows as [|r rows IH]; intros m Hm.
  - exists m. split; [done|]. intros j. simpl. by destruct (m !! j).
  - destruct (Hm r) as [inner Hr]; [apply list_elem_of_here|].
    simpl. rewrite bind_eq. unfold fill_options at 1. rewrite Hr. simpl.
    destruct (IH (<[contentslot_id r := <[name r := value r]> inner]> m))
      as (m' & -> & Hm').
    { intros r' Hr'. rewrite lookup_insert. case_decide; [eauto|].
      apply Hm. by apply list_elem_of_further. }
    exists m'. split; [done|]. intros j. rewrite Hm', lookup_insert.
    unfold option_of_slot at 2.
    destruct (decide (contentslot_id r = j)) as [<-|Hne].
    + rewrite bool_decide_eq_true_2 by done. by rewrite Hr.
    + by rewrite bool_decide_eq_false_2 by done.
Qed.

Lemma filter_requested (ids : list Z) (j : Z) (tbl : list OptionRow) :
  j ∈ ids →
  List.filter (option_of_slot j)
    (List.filter (λ r, bool_decide (contentslot_id r ∈ ids)) tbl) =
  List.filter (option_of_slot j) tbl.
Proof.
  intros Hj. induction tbl as [|r tbl IH]; [done|]. simpl.
  destruct (bool_decide_reflect (contentslot_id r ∈ ids)) as [Hin|Hnin]; simpl.
  - by rewrite IH.
  - rewrite IH. rewrite option_of_slot_false; [done|]. by intros <-.
Qed.

(** The batch read holds a map for every requested id, filled with the
    options stored for it, and never meets [undefined]. *)
Lemma getOptionsForContentSlots_spec (conn : Conn) (ids : list Z) (w : World) :
  match getOptionsForContentSlots conn ids w with
  | (Return m, w') =>
      w' = answered conn (SELECT_options_in ids) (db w) w
      ∧ ∀ j, m !! j = if bool_decide (j ∈ ids)
                      then Some (stored_options w j) else None
  | (Throw e, w') =>
      scheduled e w ∧ w' = answered conn (SELECT_options_in ids) (db w) w
  end.
Proof.
  unfold getOptionsForContentSlots. rewrite bind_eq.
  destruct (query_cases conn (SELECT_options_in ids) w) as [(e & He & ->)| ->];
    [done|].
  cbn [exec fst snd].
  set (rows := List.filter _ _).
  destruct (fill_options_loop rows
              (foldl (λ m id, <[id := ∅]> m) ∅ ids)
              (answered conn (SELECT_options_in ids) (db w) w))
    as (m' & -> & Hm').
  { intros r Hr. rewrite init_maps_lookup.
    apply list_elem_of_In, filter_In in Hr as [_ Hr].
    rewrite Hr. eauto. }
  split; [done|]. intros j. rewrite Hm', init_maps_lookup.
  case_bool_decide as Hj; [|done]. simpl. f_equal.
  unfold rows. by rewrite filter_requested.
Qed.

Lemma array_map_pure {S X Y} (g : X → M S Y) (h : X → Y) (xs : list X) (s : S) :
  (∀ x, x ∈ xs → g x s = (Return (h x), s)) →
  array_map g xs s = (Return (List.map h xs), s).
Proof.
  induction xs as [|x xs IH]; intros Hg; [done|].
  simpl. rewrite bind_eq, Hg by apply list_elem_of_here.
  rewrite bind_eq, IH; [done|]. intros y Hy. apply Hg.
  by apply list_elem_of_further.
Qed.

(** C5. [getContentSlotsByViewId] issues no statement on the option table
    when the view has no slot rows and returns the empty list; when it
    finds rows it issues exactly one, [SELECT ... contentslot_id IN ?] over
    the ids of all of them, on the connection of the slot query. The batch
    read returns a map for every requested id, so [options.get(row.id)] is
    never [undefined]: the method never throws a TypeError, and every
    object returned carries the options stored for its slot. *)
Theorem getContentSlotsByViewId_spec (v : Z) (w : World) :
  let r := getContentSlotsByViewId v w in
  let rows := slots_of_view v w in
  (∀ conn ids w0,
     match getOptionsForContentSlots conn ids w0 with
     | (Return m, _) => ∀ j, j ∈ ids → is_Some (m !! j)
     | (Throw e, _) => e ≠ TypeError
     end)
  ∧ match r.1 with
    | Return objs =>
        objs = List.map
                 (λ row, set_options (rowToObject row)
                                     (flatten (stored_options w (row_id row))))
                 rows
        ∧ ∃ conn,
            log r.2 =
              log w ++ (conn, SELECT_slots_by_view v)
                       :: (if bool_decide (rows = []) then []
                           else [(conn, SELECT_options_in (List.map row_id rows))])
    | Throw e => scheduled e w
    end
  ∧ (∃ delta,
       log r.2 = log w ++ delta
       ∧ (length (List.filter (λ e, option_statement e.2) delta) ≤ 1)%nat
       ∧ (rows = [] → Forall (λ e, option_statement e.2 = false) delta))
  ∧ (faults w = [] → ∃ objs, r.1 = Return objs).
Proof.
  intros r rows. split.
  { intros conn ids w0.
    pose proof (getOptionsForContentSlots_spec conn ids w0) as H.
    destruct (getOptionsForContentSlots conn ids w0) as [[m|e] w1].
    - destruct H as [_ H]. intros j Hj. rewrite H.
      rewrite bool_decide_eq_true_2 by done. eauto.
    - destruct H as [(s & -> & _) _]. done. }
  subst r. unfold getContentSlotsByViewId.
  rewrite call_finally. unfold getContentSlotsByViewId_try.
  rewrite (try_open (λ conn, _)).
  destruct (getConnection_cases w) as [(e & w' & He & -> & _ & _ & Hl)| ->].
  { simpl. split_and!; [done| |].
    - exists []. rewrite Hl, app_nil_r. split_and!; [done|simpl; lia|done].
    - intros F. by apply scheduled_quiet in He. }
  rewrite bind_eq, lift_eq.
  destruct (query_cases (acquired w) (SELECT_slots_by_view v) (connected w))
    as [(e & He & ->)| ->].
  { simpl. split_and!.
    - destruct He as (s & -> & Hin). exists s. split; [done|].
      by apply tail_elem_of.
    - eexists [_]. split_and!; [done|simpl; lia|]. intros _. by repeat constructor.
    - intros F. apply scheduled_quiet in He. simpl in He. by rewrite F in He. }
  cbn [exec fst snd]. change (db (connected w)) with (db w).
  fold (slots_of_view v w). fold rows.
  set (c := acquired w).
  set (w1 := answered c (SELECT_slots_by_view v) (db w) (connected w)).
  destruct (bool_decide_reflect (length rows = 0%nat)) as [Hz|Hnz].
  { apply length_zero_iff_nil in Hz. simpl. rewrite Hz. simpl. split_and!.
    - done.
    - by exists c.
    - eexists [_]. split_and!; [done|simpl; lia|]. intros _. by repeat constructor.
    - eauto. }
  assert (rows ≠ []) as Hne. { intros E. apply Hnz. by rewrite E. }
  rewrite bind_eq, lift_eq.
  pose proof (getOptionsForContentSlots_spec c (List.map row_id rows) w1) as H.
  destruct (getOptionsForContentSlots c (List.map row_id rows) w1)
    as [[m|e] w2].
  2:{ destruct H as [He ->]. simpl. split_and!.
      - apply scheduled_answered in He. destruct He as (s & -> & Hin).
        exists s. split; [done|]. by apply tail_elem_of.
      - eexists [_; _]. split_and!; [by rewrite <- app_assoc|simpl; lia|done].
      - intros F. apply scheduled_quiet in He. simpl in He. by rewrite F in He. }
  destruct H as [-> Hm].
  rewrite (array_map_pure _
             (λ row, set_options (rowToObject row)
                                 (flatten (stored_options w (row_id row))))).
  2:{ intros row Hrow. rewrite Hm, bool_decide_eq_true_2; [done|].
      apply list_elem_of_In, in_map. by apply list_elem_of_In. }
  simpl. split_and!.
  - done.
  - exists c. rewrite bool_decide_eq_false_2 by done.
    by rewrite <- app_assoc.
  - eexists [_; _]. split_and!; [by rewrite <- app_assoc|simpl; lia|done].
  - eauto.
Qed.

(** ** Synchronizing options *)

Lemma slot_options_row (tbl : list OptionRow) (i : Z) (k v : string) :
  slot_options tbl i !! k = Some v → mkOptionRow i k v ∈ tbl.
Proof.
  induction tbl as [|r tbl IH] using rev_ind.
  - by rewrite slot_options_nil, lookup_empty.
  - rewrite slot_options_snoc, elem_of_app, list_elem_of_singleton.
    destruct (bool_decide_reflect (contentslot_id r = i)) as [Hi|Hi]; [|auto].
    rewrite lookup_insert. case_decide as Hk; [|auto].
    intros [= <-]. right. destruct r. simpl in *. by subst.
Qed.

Lemma no_slot_row (i : Z) (rows : list SlotRow) :
  existsb (slot_has_id i) rows = false ↔ ∀ row, row ∈ rows → row_id row ≠ i.
Proof.
  rewrite <- not_true_iff_false, existsb_slot_has_id. split.
  - intros H row Hrow Hi. apply H. eauto.
  - intros H (row & Hrow & Hi). by apply (H row).
Qed.

Lemma refused_missing i e w w' :
  refused i e w w' →
  e = Storage er_no_referenced_row
  ∧ ∀ row, row ∈ contentslots (db w) → row_id row ≠ i.
Proof. intros (-> & _ & Hfk). split; [done|]. by apply no_slot_row. Qed.

(** C1. Whatever option rows are stored at the start, a run of
    [setOptionsForContentSlot] that completes leaves for the slot exactly the
    desired options: read back they are the map [D]; every row of the slot
    is an entry of [D] and every entry of [D] has its row, so no stale key
    survives; the rows of other slots are untouched. The only ways not to
    complete are a scheduled storage failure and, for an id whose slot row
    is not stored, the foreign key turning down the INSERT of a new key. *)
Theorem setOptionsForContentSlot_persists
    (conn : Conn) (i : Z) (D : gmap string string) (w : World) :
  match setOptionsForContentSlot conn i D w with
  | (Return _, w') =>
      stored_options w' i = D
      ∧ (∀ r, r ∈ contentslot_options (db w') → contentslot_id r = i →
              D !! name r = Some (value r))
      ∧ (∀ k v, D !! k = Some v →
                mkOptionRow i k v ∈ contentslot_options (db w'))
      ∧ (∀ j, j ≠ i →
           List.filter (option_of_slot j) (contentslot_options (db w')) =
           List.filter (option_of_slot j) (contentslot_options (db w)))
  | (Throw e, _) =>
      scheduled e w
      ∨ (e = Storage er_no_referenced_row
         ∧ ∀ row, row ∈ contentslots (db w) → row_id row ≠ i)
  end.
Proof.
  pose proof (synchronize_spec conn i D w) as H.
  destruct (setOptionsForContentSlot conn i D w) as [[b|e] w'].
  2:{ destruct H as [H|[H _]]; [left; by eapply raised_scheduled|].
      right. by eapply refused_missing. }
  destruct H as (Hs & Hv & Hr & _). split_and!; [done|done| |apply Hs].
  intros k v Hk. apply slot_options_row. fold (stored_options w' i).
  by rewrite Hv.
Qed.

(** C2. With the unique key of the option table in force and a driver that
    reports changed rows, a completed run of [setOptionsForContentSlot]
    returns [false] exactly when the stored options equal the desired ones
    as maps, and [true] as soon as some key differs (added, removed or
    altered). For a key that is both stored and desired the UPDATE is issued
    whether or not the value differs; only the affected-row count decides
    whether it counts. *)
Theorem setOptionsForContentSlot_changed
    (conn : Conn) (i : Z) (D : gmap string string) (w w' : World) (b : bool) :
  found_rows w = false →
  unique_options (contentslot_options (db w)) →
  setOptionsForContentSlot conn i D w = (Return b, w') →
  (b = false ↔ stored_options w i = D)
  ∧ ((∃ k, stored_options w i !! k ≠ D !! k) → b = true)
  ∧ (∀ k v, D !! k = Some v → is_Some (stored_options w i !! k) →
            (conn, UPDATE_option v i k) ∈ drop (length (log w)) (log w')).
Proof.
  intros Hfr Hu Hrun. pose proof (synchronize_spec conn i D w) as H.
  rewrite Hrun in H. destruct H as (_ & _ & _ & Hl & Hb & _).
  specialize (Hb Hu). rewrite Hfr in Hb.
  assert (b = false ↔ stored_options w i = D) as Hiff.
  { rewrite Hb. apply options_changed_changed_rows. }
  split_and!; [done| |].
  - intros (k & Hk). destruct b; [done|]. exfalso. apply Hk.
    by rewrite (proj1 Hiff).
  - intros k v HD HS. rewrite Hl, drop_app_length. unfold synchronize_log.
    apply list_elem_of_further, elem_of_app. right.
    apply list_elem_of_In, in_map_iff. exists (k, v). split.
    + unfold write_stmt, Map_has. simpl. by rewrite bool_decide_eq_true_2.
    + by apply list_elem_of_In, elem_of_map_to_list.
Qed.

(** The counterpart for a driver that reports matched rows: every desired
    entry counts as a change, so the flag is clear only when nothing is
    stored and nothing is desired. The flag follows the storage engine's
    report, not a comparison of values in memory. *)
Lemma setOptionsForContentSlot_found_rows
    (conn : Conn) (i : Z) (D : gmap string string) (w w' : World) (b : bool) :
  found_rows w = true →
  unique_options (contentslot_options (db w)) →
  setOptionsForContentSlot conn i D w = (Return b, w') →
  (b = false ↔ stored_options w i = ∅ ∧ D = ∅).
Proof.
  intros Hfr Hu Hrun. pose proof (synchronize_spec conn i D w) as H.
  rewrite Hrun in H. destruct H as (_ & _ & _ & _ & Hb & _).
  specialize (Hb Hu). rewrite Hfr in Hb. rewrite Hb.
  apply options_changed_found_rows.
Qed.

(** The slot row an INSERT has just stored is there for the foreign key. *)
Lemma inserted_slot_exists (rows : list SlotRow) i v ct cs rs ce re :
  existsb (slot_has_id i) (rows ++ [mkSlotRow i v ct cs rs ce re]) = true.
Proof.
  rewrite existsb_app. simpl. unfold slot_has_id at 2. simpl.
  rewrite (bool_decide_eq_true_2 (i = i)) by done. by rewrite orb_true_r.
Qed.

(** Either way the exception is the storage engine's. *)
Lemma failure_storage i e w w' (P : Prop) :
  raised e w w' ∨ (refused i e w w' ∧ P) → ∃ s, e = Storage s.
Proof. intros [(_ & s & -> & _)|[(-> & _) _]]; eauto. Qed.

(** For a slot that is stored the foreign key has nothing to turn down. *)
Lemma refused_stored i e w w' :
  existsb (slot_has_id i) (contentslots (db w)) = true → ¬ refused i e w w'.
Proof. intros Hfk (_ & _ & H). congruence. Qed.

Lemma setOptionsForContentSlot_returns
    (conn : Conn) (i : Z) (D : gmap string string) (w : World) :
  faults w = [] →
  existsb (slot_has_id i) (contentslots (db w)) = true →
  ∃ b w', setOptionsForContentSlot conn i D w = (Return b, w').
Proof.
  intros F Hfk. pose proof (synchronize_spec conn i D w) as H.
  destruct (setOptionsForContentSlot conn i D w) as [[b|e] w']; [eauto|].
  destruct H as [H|[H _]]; [|by apply refused_stored in H].
  by apply raised_scheduled, scheduled_quiet in H.
Qed.

(** ** Updating a slot *)

Section update.
Context (i : Z) (ct : string) (v cs rs ce re : Z) (D : gmap string string).

Lemma updateContentSlot_try_eq w :
  updateContentSlot_try i ct v cs rs ce re D (None, w) =
    match getConnection w with
    | (Return c, w1) =>
        match query c (UPDATE_slot v ct cs rs ce re i) w1 with
        | (Return result, w2) =>
            match setOptionsForContentSlot c i D w2 with
            | (Return changed, w3) =>
                (Return (if bool_decide (affectedRows result = 1) || changed
                         then Some i else None),
                 (Some c, w3))
            | (Throw e, w3) => (Throw e, (Some c, w3))
            end
        | (Throw e, w2) => (Throw e, (Some c, w2))
        end
    | (Throw e, w1) => (Throw e, (None, w1))
    end.
Proof.
  unfold updateContentSlot_try. rewrite (try_open (λ conn, _)).
  destruct (getConnection w) as [[c|e] w1]; [|done].
  rewrite bind_eq, lift_eq.
  destruct (query c (UPDATE_slot v ct cs rs ce re i) w1) as [[result|e] w2]; [|done].
  rewrite bind_eq, lift_eq.
  by destruct (setOptionsForContentSlot c i D w2) as [[changed|e] w3].
Qed.

(** The rows an UPDATE of the slot counts when it reports changed rows. *)
Lemma no_row_changes (rows : list SlotRow) :
  (∀ row, row ∈ rows → row_id row = i → same_fields row v ct cs rs ce re = true) →
  count_rows (λ r, slot_has_id i r && (false || negb (same_fields r v ct cs rs ce re)))
             rows = 0.
Proof.
  unfold count_rows. induction rows as [|r rows IH]; [done|]. intros H. simpl.
  destruct (slot_has_id i r) eqn:E; simpl.
  - rewrite (H r); simpl.
    + apply IH. intros row Hrow. apply H. by apply list_elem_of_further.
    + apply list_elem_of_here.
    + by apply bool_decide_eq_true in E.
  - apply IH. intros row Hrow. apply H. by apply list_elem_of_further.
Qed.

Lemma same_fields_updated n :
  same_fields (mkSlotRow n v ct cs rs ce re) v ct cs rs ce re = true.
Proof. unfold same_fields. simpl. by rewrite !bool_decide_eq_true_2. Qed.

Lemma updated_rows_settled (rows : list SlotRow) row :
  row ∈ List.map (λ r, if slot_has_id i r
                       then mkSlotRow (row_id r) v ct cs rs ce re else r) rows →
  row_id row = i → same_fields row v ct cs rs ce re = true.
Proof.
  intros Hin Hi. apply list_elem_of_In, in_map_iff in Hin as (r & <- & _).
  destruct (slot_has_id i r) eqn:E; [apply same_fields_updated|].
  apply bool_decide_eq_false in E. done.
Qed.

(** The UPDATE of the slot row changes no id. *)
Lemma updated_rows_exist (rows : list SlotRow) :
  existsb (slot_has_id i)
    (List.map (λ r, if slot_has_id i r
                    then mkSlotRow (row_id r) v ct cs rs ce re else r) rows)
  = existsb (slot_has_id i) rows.
Proof.
  induction rows as [|row rows IH]; [done|]. simpl. rewrite IH. f_equal.
  destruct (slot_has_id i row) eqn:E; [|done]. done.
Qed.

(** A completed [updateContentSlot], step by step. *)
Lemma updateContentSlot_run w :
  let c := acquired w in
  let w1 := answered c (UPDATE_slot v ct cs rs ce re i)
                     (exec (found_rows w) (UPDATE_slot v ct cs rs ce re i) (db w)).2
                     (connected w) in
  match updateContentSlot i ct v cs rs ce re D w with
  | (Return r, w') =>
      ∃ pkt changed w2,
        exec (found_rows w) (UPDATE_slot v ct cs rs ce re i) (db w) = (Return pkt, db w1)
        ∧ setOptionsForContentSlot c i D w1 = (Return changed, w2)
        ∧ w' = released w2
        ∧ r = (if bool_decide (affectedRows pkt = 1) || changed
               then Some i else None)
  | (Throw e, w') =>
      raised e w w'
      ∨ (refused i e w w'
         ∧ ∃ k, stored_options w i !! k = None ∧ is_Some (D !! k))
  end.
Proof.
  intros c w1. unfold updateContentSlot.
  rewrite call_finally, updateContentSlot_try_eq.
  destruct (getConnection_run w) as [(e & w' & He & -> & _)| [Hc ->]];
    [by left|].
  destruct (query_run (acquired w) (UPDATE_slot v ct cs rs ce re i) (connected w))
  as [(e & He & ->)| [Hq ->]].
  { left. eapply raised_after; [apply Hc|apply He]. }
  change (found_rows (connected w)) with (found_rows w).
  change (db (connected w)) with (db w). fold c. fold w1.
  cbn [exec fst snd].
  assert (undisturbed w w1) as Hw1.
  { eapply undisturbed_trans; [apply Hc|apply (Hq _)]. }
  pose proof (synchronize_spec c i D w1) as H.
  destruct (setOptionsForContentSlot c i D w1) as [[changed|e] w2]; simpl.
  - eexists _, changed, w2. split_and!; done.
  - destruct H as [H|[(-> & Hrun & Hfk) Hk]].
    + left. eapply raised_after; [apply Hw1|apply H].
    + right. split; [|done]. split_and!; [done| |].
      * eapply undisturbed_trans; [apply Hw1|apply Hrun].
      * rewrite <- Hfk. unfold w1. simpl. by rewrite updated_rows_exist.
Qed.
End update.

(** C3, as stated, fails for a driver that reports matched rows: the
    UPDATE of the slot row then reports the row it matched, changed or not,
    and [updateContentSlot] repeated with the same arguments returns the id
    again. *)
Lemma repeated_update_returns_id :
  found_rows matched_world = true
  ∧ (updateContentSlot 1 "Banner" 1 1 1 3 2 red matched_world).1
    = Return (Some 1)
  ∧ (updateContentSlot 1 "Banner" 1 1 1 3 2 red
       (updateContentSlot 1 "Banner" 1 1 1 3 2 red matched_world).2).1
    = Return (Some 1)
  ∧ ¬ repeated_update_returns_absent.
Proof.
  assert (updateContentSlot 1 "Banner" 1 1 1 3 2 red matched_world
          = (Return (Some 1),
             (updateContentSlot 1 "Banner" 1 1 1 3 2 red matched_world).2))
    as H1 by (vm_compute; reflexivity).
  assert (updateContentSlot 1 "Banner" 1 1 1 3 2 red
            (updateContentSlot 1 "Banner" 1 1 1 3 2 red matched_world).2
          = (Return (Some 1),
             (updateContentSlot 1 "Banner" 1 1 1 3 2 red
                (updateContentSlot 1 "Banner" 1 1 1 3 2 red matched_world).2).2))
    as H2 by (vm_compute; reflexivity).
  split_and!; [vm_compute; reflexivity| | |].
  - apply (f_equal fst) in H1. exact H1.
  - apply (f_equal fst) in H2. exact H2.
  - intros H. specialize (H _ _ _ _ _ _ _ _ _ _ _ _ _ H1 H2). discriminate H.
Qed.

(** C3, as amended. When [updateContentSlot] returns, it returns the id if
    the UPDATE of the slot row reported one affected row or the synchronizer
    reported a change, and [None] (JavaScript's [null]) only if neither
    happened. With the unique key of the option table in force, a call that
    leaves the scalar fields as stored but brings different options returns
    the id, under either driver setting. Under the storage model in which an
    UPDATE reports one affected row exactly when the new value differs from
    the stored one (a driver that reports changed rows, the unique key in
    force), a call repeated with the same arguments right after a completed
    one returns [None]. *)
Theorem updateContentSlot_result
    (i : Z) (ct : string) (v cs rs ce re : Z) (D : gmap string string)
    (w w' : World) (r : option Z) :
  updateContentSlot i ct v cs rs ce re D w = (Return r, w') →
  (∃ pkt changed w2,
     (exec (found_rows w) (UPDATE_slot v ct cs rs ce re i) (db w)).1 = Return pkt
     ∧ setOptionsForContentSlot (acquired w) i D
         (answered (acquired w) (UPDATE_slot v ct cs rs ce re i)
            (exec (found_rows w) (UPDATE_slot v ct cs rs ce re i) (db w)).2
            (connected w))
       = (Return changed, w2)
     ∧ (affectedRows pkt = 1 ∨ changed = true → r = Some i)
     ∧ (r = None → affectedRows pkt ≠ 1 ∧ changed = false)
     ∧ (r = Some i ∨ r = None))
  ∧ (unique_options (contentslot_options (db w)) →
     (∀ row, row ∈ contentslots (db w) → row_id row = i →
             same_fields row v ct cs rs ce re = true) →
     stored_options w i ≠ D →
     r = Some i)
  ∧ (found_rows w = false →
     unique_options (contentslot_options (db w)) →
     ∀ r2 w'', updateContentSlot i ct v cs rs ce re D w' = (Return r2, w'') →
               r2 = None).
Proof.
  intros Hrun. pose proof (updateContentSlot_run i ct v cs rs ce re D w) as H.
  rewrite Hrun in H. destruct H as (pkt & changed & w2 & Hex & Hsync & -> & ->).
  set (w1 := answered _ _ _ _) in *.
  pose proof (synchronize_spec (acquired w) i D w1) as Hspec.
  rewrite Hsync in Hspec. destruct Hspec as (Hs & Hv & _ & _ & Hb & _).
  split_and!.
  - exists pkt, changed, w2. split_and!.
    + by rewrite Hex.
    + done.
    + intros [Ha| ->].
      * by rewrite bool_decide_eq_true_2.
      * by rewrite orb_true_r.
    + destruct (bool_decide_reflect (affectedRows pkt = 1)); [done|].
      destruct changed; done.
    + destruct (_ || _); auto.
  - intros Hu Hsame Hne.
    assert (changed = true) as ->; [|by rewrite orb_true_r].
    rewrite (Hb Hu). change (found_rows w1) with (found_rows w).
    apply not_false_iff_true. destruct (found_rows w).
    + intros [E1 E2]%options_changed_found_rows. apply Hne.
      rewrite E2. exact E1.
    + intros E%options_changed_changed_rows. done.
  - intros Hfr Hu r2 w'' Hrun2.
    pose proof (updateContentSlot_run i ct v cs rs ce re D (released w2)) as H.
    rewrite Hrun2 in H.
    destruct H as (pkt2 & changed2 & w3 & Hex2 & Hsync2 & -> & ->).
    set (w1' := answered (acquired (released w2)) _ _ (connected (released w2)))
      in *.
    assert (found_rows w2 = false) as Hfr2.
    { by rewrite (step_found_rows _ _ _ Hs). }
    assert (affectedRows pkt2 = 0) as Hpkt2.
    { change (found_rows (released w2)) with (found_rows w2) in Hex2.
      rewrite Hfr2 in Hex2. simpl in Hex2.
      apply (f_equal fst) in Hex2. simpl in Hex2. injection Hex2 as <-. simpl.
      apply no_row_changes. intros row Hrow.
      rewrite (step_slots _ _ _ Hs) in Hrow. simpl in Hrow.
      intros Hi. by eapply updated_rows_settled. }
    pose proof (synchronize_spec (acquired (released w2)) i D w1') as Hspec2.
    rewrite Hsync2 in Hspec2. destruct Hspec2 as (_ & _ & _ & _ & Hb2 & _).
    assert (changed2 = false) as ->.
    { rewrite Hb2.
      - change (found_rows w1') with (found_rows w2). rewrite Hfr2.
        apply options_changed_changed_rows.
        assert (contentslot_options (db w1') = contentslot_options (db w2)) as E.
        { unfold w1'. simpl. done. }
        unfold stored_options in *. by rewrite E.
      - assert (contentslot_options (db w1') = contentslot_options (db w2)) as E.
        { unfold w1'. simpl. done. }
        rewrite E. by apply Hs. }
    rewrite Hpkt2. done.
Qed.

(** ** Updating a slot that is not stored *)

Lemma no_row_matches (i : Z) (p : SlotRow → bool) (g : SlotRow → SlotRow)
    (rows : list SlotRow) :
  (∀ row, row ∈ rows → row_id row ≠ i) →
  count_rows (λ r, slot_has_id i r && p r) rows = 0
  ∧ List.map (λ r, if slot_has_id i r then g r else r) rows = rows.
Proof.
  unfold count_rows. induction rows as [|r rows IH]; [done|]. intros H. simpl.
  assert (slot_has_id i r = false) as ->.
  { apply bool_decide_eq_false_2, H, list_elem_of_here. }
  simpl. destruct IH as [-> ->]; [|done].
  intros row Hrow. apply H. by apply list_elem_of_further.
Qed.

Lemma db_eta (d : Db) :
  mkDb (contentslots d) (contentslot_options d) (auto_increment d) = d.
Proof. by destruct d. Qed.

(** C10, as amended. When no slot row and no option row is stored for the
    id and the options map is not empty, [updateContentSlot] returns
    neither [None] nor the id: the UPDATE of the slot table affects no row,
    the synchronizer reads, finds no existing options and issues the INSERT
    for a desired key, and the foreign key of the option table turns it
    down. The method throws the storage engine's exception (or that of a
    scheduled failure met before), stores nothing, so that no option row
    names a slot that does not exist, and gives the connection back. *)
Theorem updateContentSlot_missing_slot
    (i : Z) (ct : string) (v cs rs ce re : Z) (D : gmap string string)
    (w : World) :
  (∀ row, row ∈ contentslots (db w) → row_id row ≠ i) →
  stored_options w i = ∅ →
  D ≠ ∅ →
  let r := updateContentSlot i ct v cs rs ce re D w in
  (∃ pkt d, exec (found_rows w) (UPDATE_slot v ct cs rs ce re i) (db w)
            = (Return pkt, d) ∧ affectedRows pkt = 0)
  ∧ (∃ e, r.1 = Throw e
          ∧ (raised e w r.2
             ∨ (refused i e w r.2
                ∧ ∃ conn k x,
                    D !! k = Some x
                    ∧ log r.2 =
                        log w ++ [(conn, UPDATE_slot v ct cs rs ce re i);
                                  (conn, SELECT_options i);
                                  (conn, INSERT_option i k x)])))
  ∧ db r.2 = db w
  ∧ leased r.2 = leased w
  ∧ (faults w = [] → r.1 = Throw (Storage er_no_referenced_row)).
Proof.
  intros Hrows Hnone HD r.
  destruct (no_row_matches i
              (λ r, found_rows w || negb (same_fields r v ct cs rs ce re))
              (λ r, mkSlotRow (row_id r) v ct cs rs ce re)
              (contentslots (db w)) Hrows) as [Hcount Hsame].
  assert (∃ e, r.1 = Throw e
          ∧ (raised e w r.2
             ∨ (refused i e w r.2
                ∧ ∃ conn k x,
                    D !! k = Some x
                    ∧ log r.2 =
                        log w ++ [(conn, UPDATE_slot v ct cs rs ce re i);
                                  (conn, SELECT_options i);
                                  (conn, INSERT_option i k x)]))
          ∧ db r.2 = db w) as (e & He & Hcase & Hdb).
  { subst r. unfold updateContentSlot.
    rewrite call_finally, updateContentSlot_try_eq.
    destruct (getConnection_run w) as [(e & w' & He & -> & _ & Hd & _)| [Hc ->]].
    { exists e. split_and!; [done|by left|done]. }
    destruct (query_run (acquired w) (UPDATE_slot v ct cs rs ce re i) (connected w))
      as [(e & He & ->)| [Hq ->]].
    { exists e. split_and!; [done| |done]. left.
      eapply raised_after; [apply Hc|apply He]. }
    change (found_rows (connected w)) with (found_rows w).
    change (db (connected w)) with (db w). cbn [exec fst snd].
    rewrite Hsame, db_eta.
    set (w1 := answered (acquired w) (UPDATE_slot v ct cs rs ce re i) (db w)
                        (connected w)).
    assert (undisturbed w w1) as Hw1.
    { eapply undisturbed_trans; [apply Hc|apply (Hq (db w))]. }
    destruct (synchronize_missing (acquired w) i D w1)
      as (e & w2 & -> & Hd & Hcase); [by apply no_slot_row|done|done|].
    exists e. split_and!; [done| |done].
    destruct Hcase as [Hr|[(-> & Hrun & Hfk) (k & x & Hkx & Hl)]].
    - left. eapply raised_after; [apply Hw1|apply Hr].
    - right. split.
      + split_and!; [done| |done].
        eapply undisturbed_trans; [apply Hw1|apply Hrun].
      + exists (acquired w), k, x. split; [done|]. simpl. rewrite Hl.
        unfold w1. simpl. by rewrite <- app_assoc. }
  split_and!.
  - eexists _, _. split; [reflexivity|]. simpl. apply Hcount.
  - eauto.
  - done.
  - apply scoped_balanced, scoped_updateContentSlot_try.
  - intros F. rewrite He. destruct Hcase as [Hr|[(-> & _) _]]; [|done].
    by apply raised_scheduled, scheduled_quiet in Hr.
Qed.

(** ** Creating a slot *)

Lemma createContentSlot_try_eq ct v cs rs ce re D w :
  createContentSlot_try ct v cs rs ce re D (None, w) =
    match getConnection w with
    | (Return c, w1) =>
        match query c (INSERT_slot v ct cs rs ce re) w1 with
        | (Return insertResult, w2) =>
            match setOptionsForContentSlot c (insertId insertResult) D w2 with
            | (Return _, w3) => (Return (insertId insertResult), (Some c, w3))
            | (Throw e, w3) => (Throw e, (Some c, w3))
            end
        | (Throw e, w2) => (Throw e, (Some c, w2))
        end
    | (Throw e, w1) => (Throw e, (None, w1))
    end.
Proof.
  unfold createContentSlot_try. rewrite (try_open (λ conn, _)).
  destruct (getConnection w) as [[c|e] w1]; [|done].
  rewrite bind_eq, lift_eq.
  destruct (query c (INSERT_slot v ct cs rs ce re) w1) as [[result|e] w2]; [|done].
  rewrite bind_eq, lift_eq.
  by destruct (setOptionsForContentSlot c (insertId result) D w2) as [[changed|e] w3].
Qed.

(** What the [catch] block makes of the driver's exception. *)
Lemma createContentSlot_catch_eq (s : SqlError) (f : Frame) :
  createContentSlot_catch (Storage s) f =
    (Throw (if bool_decide (errno s = 1062)
            then DuplicateEntryError (Some (code s))
            else Error (Some (code s))), f).
Proof.
  unfold createContentSlot_catch. simpl.
  destruct (bool_decide_reflect (errno s = 1062)) as [E|E].
  - by rewrite bool_decide_eq_true_2 by by rewrite E.
  - rewrite bool_decide_eq_false_2; [done|]. by intros [= ?].
Qed.


(** ** What the methods throw *)

Lemma createContentSlot_try_throws ct v cs rs ce re D w e :
  (createContentSlot_try ct v cs rs ce re D (None, w)).1 = Throw e →
  ∃ s, e = Storage s.
Proof.
  rewrite createContentSlot_try_eq.
  destruct (getConnection_cases w) as [(e' & w' & (s & -> & _) & -> & _)| ->].
  { intros [= <-]. eauto. }
  destruct (query_cases (acquired w) (INSERT_slot v ct cs rs ce re) (connected w))
    as [(e' & (s & -> & _) & ->)| ->].
  { intros [= <-]. eauto. }
  cbn [exec].
  destruct (existsb _ _). { intros [= <-]. eauto. }
  cbn [fst snd insertId].
  set (w1 := answered _ _ _ _).
  pose proof (synchronize_spec (acquired w) (auto_increment (db (connected w))) D w1)
    as H.
  destruct (setOptionsForContentSlot _ _ D w1) as [[changed|e'] w2]; [done|].
  destruct (failure_storage _ _ _ _ _ H) as [s ->]. intros [= <-]. eauto.
Qed.

Lemma createContentSlot_shielded ct v cs rs ce re D w :
  shielded (createContentSlot ct v cs rs ce re D w).1.
Proof.
  unfold createContentSlot. rewrite call_finally. unfold try_catch.
  pose proof (createContentSlot_try_throws ct v cs rs ce re D w) as H.
  destruct (createContentSlot_try ct v cs rs ce re D (None, w)) as [[i|e] f];
    [done|].
  destruct (H e eq_refl) as [s ->]. rewrite createContentSlot_catch_eq. simpl.
  by case_bool_decide.
Qed.

(** ** Storage failures in the methods without a [catch] block *)

Lemma getConnection_fails w s fs :
  faults w = Some s :: fs → ∃ w', getConnection w = (Throw (Storage s), w').
Proof. intros F. unfold getConnection. rewrite F. eauto. Qed.

Lemma getConnection_passes w fs :
  faults w = None :: fs →
  getConnection w = (Return (acquired w), connected w) ∧ faults (connected w) = fs.
Proof. intros F. unfold getConnection, connected. by rewrite F. Qed.

Lemma query_fails conn stmt w s fs :
  faults w = Some s :: fs → ∃ w', query conn stmt w = (Throw (Storage s), w').
Proof. intros F. unfold query. rewrite F. eauto. Qed.

(** A failure of the pool or of the first statement, in a method of the
    shape [try { conn = await getConnection(); r = await conn.query(stmt);
    ... } finally { ... }]. *)
Lemma first_calls_fail {A} (stmt : Conn → Stmt)
    (rest : ∀ c, res_ty (stmt c) → M Frame A) (w : World) s fs :
  faults w = Some s :: fs ∨ faults w = None :: Some s :: fs →
  (call (try_finally
           (conn ← lift getConnection; assign_conn conn;;
            r ← lift (query conn (stmt conn)); rest conn r)
           release_if_conn) w).1 = Throw (Storage s).
Proof.
  intros F. rewrite call_finally, (try_open (λ conn, _)).
  destruct F as [F|F].
  - by destruct (getConnection_fails w s fs F) as [w' ->].
  - destruct (getConnection_passes w _ F) as [-> F1].
    rewrite bind_eq, lift_eq.
    by destruct (query_fails (acquired w) (stmt (acquired w)) (connected w) s fs F1)
      as [w' ->].
Qed.

Lemma deleteOne_surfaces i w : surfaces w (deleteOne i w).
Proof.
  split; [apply scoped_balanced, scoped_deleteOne_try|].
  unfold deleteOne. rewrite call_finally, deleteOne_try_eq.
  destruct (getConnection_run w) as [(e & w' & He & -> & _)| [Hc ->]]; [done|].
  destruct (query_run (acquired w) (DELETE_slot i) (connected w))
    as [(e & He & ->)| [Hq ->]]; simpl.
  - eapply raised_after; [apply Hc|exact He].
  - eapply undisturbed_trans; [apply Hc|exact (Hq _)].
Qed.

Lemma getContentSlotsByComponentType_surfaces ct w :
  surfaces w (getContentSlotsByComponentType ct w).
Proof.
  split; [apply scoped_balanced, scoped_getContentSlotsByComponentType_try|].
  unfold getContentSlotsByComponentType. rewrite call_finally.
  unfold getContentSlotsByComponentType_try. rewrite (try_open (λ conn, _)).
  destruct (getConnection_run w) as [(e & w' & He & -> & _)| [Hc ->]]; [done|].
  rewrite bind_eq, lift_eq.
  destruct (query_run (acquired w) (SELECT_slots_by_component ct) (connected w))
    as [(e & He & ->)| [Hq ->]]; simpl.
  - eapply raised_after; [apply Hc|exact He].
  - eapply undisturbed_trans; [apply Hc|exact (Hq _)].
Qed.

Lemma getOptionsForContentSlots_run (conn : Conn) (ids : list Z) (w : World) :
  match getOptionsForContentSlots conn ids w with
  | (Return _, w') => undisturbed w w'
  | (Throw e, w') => raised e w w'
  end.
Proof.
  unfold getOptionsForContentSlots. rewrite bind_eq.
  destruct (query_run conn (SELECT_options_in ids) w) as [(e & He & ->)| [Hq ->]];
    [done|].
  cbn [exec fst snd].
  set (rows := List.filter _ _).
  destruct (fill_options_loop rows
              (foldl (λ m id, <[id := ∅]> m) ∅ ids)
              (answered conn (SELECT_options_in ids) (db w) w))
    as (m' & -> & _); [|apply (Hq _)].
  intros r Hr. rewrite init_maps_lookup.
  apply list_elem_of_In, filter_In in Hr as [_ Hr].
  rewrite Hr. eauto.
Qed.

Lemma getContentSlotsByViewId_surfaces v w :
  surfaces w (getContentSlotsByViewId v w).
Proof.
  split; [apply scoped_balanced, scoped_getContentSlotsByViewId_try|].
  unfold getContentSlotsByViewId. rewrite call_finally.
  unfold getContentSlotsByViewId_try. rewrite (try_open (λ conn, _)).
  destruct (getConnection_run w) as [(e & w' & He & -> & _)| [Hc ->]]; [done|].
  rewrite bind_eq, lift_eq.
  destruct (query_run (acquired w) (SELECT_slots_by_view v) (connected w))
    as [(e & He & ->)| [Hq ->]].
  { simpl. eapply raised_after; [apply Hc|exact He]. }
  cbn [exec fst snd]. set (rows := List.filter _ _).
  set (w1 := answered _ _ _ _).
  assert (undisturbed w w1) as Hw1.
  { eapply undisturbed_trans; [apply Hc|exact (Hq _)]. }
  case_bool_decide as Hlen; [done|].
  rewrite bind_eq, lift_eq.
  pose proof (getOptionsForContentSlots_spec (acquired w) (List.map row_id rows) w1)
    as H.
  pose proof (getOptionsForContentSlots_run (acquired w) (List.map row_id rows) w1)
    as Hrun.
  destruct (getOptionsForContentSlots _ _ w1) as [[m|e'] w2].
  - destruct H as [_ Hm].
    rewrite (array_map_pure _
               (λ row, set_options (rowToObject row)
                                   (flatten (stored_options w1 (row_id row))))).
    + simpl. by eapply undisturbed_trans.
    + intros row Hrow. rewrite Hm, bool_decide_eq_true_2; [done|].
      apply list_elem_of_In, in_map. by apply list_elem_of_In.
  - simpl. by eapply raised_after.
Qed.

Lemma updateContentSlot_surfaces i ct v cs rs ce re D w :
  let run := updateContentSlot i ct v cs rs ce re D w in
  leased run.2 = leased w
  ∧ match run.1 with
    | Return _ => undisturbed w run.2
    | Throw e => raised e w run.2 ∨ refused i e w run.2
    end.
Proof.
  intros run. split; [apply scoped_balanced, scoped_updateContentSlot_try|].
  subst run. unfold updateContentSlot.
  rewrite call_finally, updateContentSlot_try_eq.
  destruct (getConnection_run w) as [(e & w' & He & -> & _)| [Hc ->]];
    [by left|].
  destruct (query_run (acquired w) (UPDATE_slot v ct cs rs ce re i) (connected w))
    as [(e & He & ->)| [Hq ->]].
  { simpl. left. eapply raised_after; [apply Hc|exact He]. }
  cbn [exec fst snd].
  set (w1 := answered _ _ _ _).
  assert (undisturbed w w1) as Hw1.
  { eapply undisturbed_trans; [apply Hc|exact (Hq _)]. }
  pose proof (synchronize_spec (acquired w) i D w1) as H.
  destruct (setOptionsForContentSlot (acquired w) i D w1) as [[changed|e] w2];
    simpl.
  - destruct H as (Hs & _).
    eapply undisturbed_trans; [apply Hw1|apply (step_run _ _ _ Hs)].
  - destruct H as [H|[(-> & Hrun & Hfk) _]].
    + left. eapply raised_after; [apply Hw1|exact H].
    + right. split_and!; [done| |].
      * eapply undisturbed_trans; [apply Hw1|exact Hrun].
      * rewrite <- Hfk. unfold w1. simpl. by rewrite updated_rows_exist.
Qed.

(** C7, as the spec states it, fails: a lock wait timeout during
    [deleteOne] reaches the caller as the driver raised it. *)
Lemma raw_exception_escapes :
  (deleteOne 1 failing_world).1 = Throw (Storage lock_timeout)
  ∧ ¬ no_raw_exception_escapes.
Proof.
  assert ((deleteOne 1 failing_world).1 = Throw (Storage lock_timeout)) as E.
  { vm_compute. reflexivity. }
  split; [exact E|]. intros (_ & H & _). specialize (H 1 failing_world).
  rewrite E in H. exact H.
Qed.

(** C7, as amended. [createContentSlot] returns a value or throws one of
    the two typed failures, whatever the input and the storage failure. The
    other four methods have no [catch] block, and a storage failure reaches
    their caller as the driver raised it, after the connection is given
    back: each of them returns only when no scheduled failure fired on its
    way, and otherwise throws the driver's exception of the first failure
    that fired, with as many connections leased as before the call.
    [updateContentSlot] throws one more exception of the storage engine
    unchanged, the foreign key's when it turns down an option for a slot
    that is not stored. In particular a failure of the pool, or of the
    first statement, always makes the four methods throw that failure. *)
Theorem only_createContentSlot_shields (w : World) :
  (∀ ct v cs rs ce re D, shielded (createContentSlot ct v cs rs ce re D w).1)
  ∧ (∀ i, surfaces w (deleteOne i w))
  ∧ (∀ v, surfaces w (getContentSlotsByViewId v w))
  ∧ (∀ ct, surfaces w (getContentSlotsByComponentType ct w))
  ∧ (∀ i ct v cs rs ce re D,
       let run := updateContentSlot i ct v cs rs ce re D w in
       leased run.2 = leased w
       ∧ match run.1 with
         | Return _ => undisturbed w run.2
         | Throw e => raised e w run.2 ∨ refused i e w run.2
         end)
  ∧ (∀ s fs,
       faults w = Some s :: fs ∨ faults w = None :: Some s :: fs →
       (∀ i, (deleteOne i w).1 = Throw (Storage s))
       ∧ (∀ v, (getContentSlotsByViewId v w).1 = Throw (Storage s))
       ∧ (∀ ct, (getContentSlotsByComponentType ct w).1 = Throw (Storage s))
       ∧ (∀ i ct v cs rs ce re D,
            (updateContentSlot i ct v cs rs ce re D w).1 = Throw (Storage s))).
Proof.
  split_and!.
  - intros. apply createContentSlot_shielded.
  - intros. apply deleteOne_surfaces.
  - intros. apply getContentSlotsByViewId_surfaces.
  - intros. apply getContentSlotsByComponentType_surfaces.
  - intros. apply updateContentSlot_surfaces.
  - intros s fs F. split_and!; intros.
    + by apply (first_calls_fail (λ _, DELETE_slot i) _ w s fs).
    + by apply (first_calls_fail (λ _, SELECT_slots_by_view v) _ w s fs).
    + by apply (first_calls_fail (λ _, SELECT_slots_by_component ct) _ w s fs).
    + by apply (first_calls_fail (λ _, UPDATE_slot v ct cs rs ce re i) _ w s fs).
Qed.

(** C8. Every method leaves as many connections leased as it found, on
    every exit: normal return, duplicate key, any other failure. The [try]
    block (with its [catch] block for [createContentSlot]) never releases:
    when it exits with [conn] set, the connection is still leased, and the
    one [finally] block gives it back. *)
Theorem connection_released (w : World) :
  (∀ ct v cs rs ce re D,
     leased (createContentSlot ct v cs rs ce re D w).2 = leased w
     ∧ scoped (try_catch (createContentSlot_try ct v cs rs ce re D)
                         createContentSlot_catch))
  ∧ (∀ i, leased (deleteOne i w).2 = leased w ∧ scoped (deleteOne_try i))
  ∧ (∀ v, leased (getContentSlotsByViewId v w).2 = leased w
          ∧ scoped (getContentSlotsByViewId_try v))
  ∧ (∀ ct, leased (getContentSlotsByComponentType ct w).2 = leased w
           ∧ scoped (getContentSlotsByComponentType_try ct))
  ∧ (∀ i ct v cs rs ce re D,
       leased (updateContentSlot i ct v cs rs ce re D w).2 = leased w
       ∧ scoped (updateContentSlot_try i ct v cs rs ce re D)).
Proof.
  split_and!; intros.
  - assert (scoped (try_catch (createContentSlot_try ct v cs rs ce re D)
                              createContentSlot_catch)) as H.
    { apply scoped_catch; [apply scoped_createContentSlot_try|].
      apply keeps_createContentSlot_catch. }
    split; [|done]. by apply scoped_balanced.
  - split; [|apply scoped_deleteOne_try].
    apply scoped_balanced, scoped_deleteOne_try.
  - split; [|apply scoped_getContentSlotsByViewId_try].
    apply scoped_balanced, scoped_getContentSlotsByViewId_try.
  - split; [|apply scoped_getContentSlotsByComponentType_try].
    apply scoped_balanced, scoped_getContentSlotsByComponentType_try.
  - split; [|apply scoped_updateContentSlot_try].
    apply scoped_balanced, scoped_updateContentSlot_try.
Qed.

(** C10, as stated, fails: on the empty database [updateContentSlot] for
    slot 7, which is not stored, does not return the id: the foreign key
    turns down the INSERT of its option, the method throws and no option
    row is stored. *)
Lemma missing_slot_update_refused :
  (updateContentSlot 7 "Banner" 1 1 1 3 2 red (empty_world false)).1
  = Throw (Storage er_no_referenced_row)
  ∧ contentslot_options
      (db (updateContentSlot 7 "Banner" 1 1 1 3 2 red (empty_world false)).2)
    = []
  ∧ ¬ missing_slot_update_returns_id.
Proof.
  assert ((updateContentSlot 7 "Banner" 1 1 1 3 2 red (empty_world false)).1
          = Throw (Storage er_no_referenced_row)) as E.
  { vm_compute. reflexivity. }
  split_and!; [exact E|vm_compute; reflexivity|]. intros H.
  assert (Throw (Storage er_no_referenced_row) = Return (Some 7)
          :> Outcome (option Z)) as Habs; [|discriminate Habs].
  rewrite <- E. apply H.
  - reflexivity.
  - intros row Hrow. exfalso. exact (not_elem_of_nil row Hrow).
  - reflexivity.
  - intros Hred. apply (f_equal (λ m, m !! "color"%string)) in Hred.
    vm_compute in Hred. discriminate Hred.
Qed.

(** ** The theorems at work on the sample data *)

Lemma banner_world_unique : unique_options (contentslot_options (db banner_world)).
Proof.
  unfold unique_options. vm_compute.
  apply NoDup_cons. split; [apply not_elem_of_nil|apply NoDup_nil_2].
Defined.

(** Replacing [{color: "red"}] by [{color: "blue", size: "large"}] on slot 1
    leaves exactly the two desired rows. *)
Lemma setOptionsForContentSlot_persists_witness :
  (setOptionsForContentSlot 0%nat 1 blue_large banner_world).1 = Return true
  ∧ stored_options (setOptionsForContentSlot 0%nat 1 blue_large banner_world).2 1
    = blue_large.
Proof.
  split; [vm_compute; reflexivity|].
  pose proof (setOptionsForContentSlot_persists 0%nat 1 blue_large banner_world) as H.
  destruct (setOptionsForContentSlot 0%nat 1 blue_large banner_world)
    as [[b|e] w'] eqn:E.
  - exact (proj1 H).
  - exfalso. vm_compute in E. discriminate E.
Defined.

(** The same run reports a change, and a run with the stored options
    reports none although it issues its UPDATE. *)
Lemma setOptionsForContentSlot_changed_witness :
  found_rows banner_world = false
  ∧ setOptionsForContentSlot 0%nat 1 red banner_world
    = (Return false, (setOptionsForContentSlot 0%nat 1 red banner_world).2)
  ∧ (false = false ↔ stored_options banner_world 1 = red)
  ∧ (0%nat, UPDATE_option "red" 1 "color")
    ∈ drop (length (log banner_world))
           (log (setOptionsForContentSlot 0%nat 1 red banner_world).2).
Proof.
  assert (found_rows banner_world = false) as Hfr by (vm_compute; reflexivity).
  assert (setOptionsForContentSlot 0%nat 1 red banner_world
          = (Return false, (setOptionsForContentSlot 0%nat 1 red banner_world).2))
    as Hrun by (vm_compute; reflexivity).
  destruct (setOptionsForContentSlot_changed 0%nat 1 red banner_world _ false
              Hfr banner_world_unique Hrun) as (Hiff & _ & Hupd).
  split_and!; [exact Hfr|exact Hrun|exact Hiff|].
  apply Hupd.
  - vm_compute. reflexivity.
  - exists "red"%string. vm_compute. reflexivity.
Defined.

(** Updating slot 1 with new options returns the id; the same call again
    returns [None]. *)
Lemma updateContentSlot_result_witness :
  updateContentSlot 1 "Banner" 1 1 1 3 2 blue_large banner_world
  = (Return (Some 1),
     (updateContentSlot 1 "Banner" 1 1 1 3 2 blue_large banner_world).2)
  ∧ ∀ r2 w'',
      updateContentSlot 1 "Banner" 1 1 1 3 2 blue_large
        (updateContentSlot 1 "Banner" 1 1 1 3 2 blue_large banner_world).2
      = (Return r2, w'') →
      r2 = None.
Proof.
  assert (updateContentSlot 1 "Banner" 1 1 1 3 2 blue_large banner_world
          = (Return (Some 1),
             (updateContentSlot 1 "Banner" 1 1 1 3 2 blue_large banner_world).2))
    as Hrun by (vm_compute; reflexivity).
  split; [exact Hrun|].
  destruct (updateContentSlot_result 1 "Banner" 1 1 1 3 2 blue_large
              banner_world _ (Some 1) Hrun) as (_ & _ & Hsecond).
  apply Hsecond; [vm_compute; reflexivity|exact banner_world_unique].
Defined.


(** Reading view 1 of [banner_world] takes one batch read and finds the
    option of slot 1; reading the empty view 9 takes none. *)
Lemma getContentSlotsByViewId_spec_witness :
  (∃ o, (getContentSlotsByViewId 1 banner_world).1 = Return [o])
  ∧ (getContentSlotsByViewId 9 banner_world).1 = Return [].
Proof.
  split.
  - destruct (getContentSlotsByViewId_spec 1 banner_world) as (_ & _ & _ & H).
    destruct H as [objs H]; [vm_compute; reflexivity|].
    destruct (getContentSlotsByViewId_spec 1 banner_world) as (_ & Hobjs & _).
    rewrite H in Hobjs. destruct Hobjs as [-> _]. rewrite H.
    eexists. vm_compute slots_of_view. reflexivity.
  - destruct (getContentSlotsByViewId_spec 9 banner_world) as (_ & _ & _ & H).
    destruct H as [objs H]; [vm_compute; reflexivity|].
    destruct (getContentSlotsByViewId_spec 9 banner_world) as (_ & Hobjs & _).
    rewrite H in Hobjs. destruct Hobjs as [-> _]. rewrite H.
    vm_compute slots_of_view. reflexivity.
Defined.

(** Deleting slot 1 of [banner_world] returns the id; deleting slot 5, which
    is not stored, returns [None]. *)
Lemma deleteOne_spec_witness :
  (deleteOne 1 banner_world).1 = Return (Some 1)
  ∧ (deleteOne 5 banner_world).1 = Return None.
Proof.
  split.
  - destruct (deleteOne_spec 1 banner_world) as (_ & Hr & H).
    destruct H as [answer H]; [vm_compute; reflexivity|].
    rewrite H in Hr |- *. destruct Hr as (pkt & Hex & -> & _).
    apply (f_equal fst) in Hex. vm_compute in Hex. injection Hex as <-.
    reflexivity.
  - destruct (deleteOne_spec 5 banner_world) as (_ & Hr & H).
    destruct H as [answer H]; [vm_compute; reflexivity|].
    rewrite H in Hr |- *. destruct Hr as (pkt & Hex & -> & _).
    apply (f_equal fst) in Hex. vm_compute in Hex. injection Hex as <-.
    reflexivity.
Defined.

(** On [failing_world], where the first statement meets a lock wait
    timeout, [deleteOne] and [updateContentSlot] throw that failure
    itself. *)
Lemma only_createContentSlot_shields_witness :
  faults failing_world = [None; Some lock_timeout]
  ∧ (deleteOne 1 failing_world).1 = Throw (Storage lock_timeout)
  ∧ (updateContentSlot 1 "Banner" 1 1 1 3 2 red failing_world).1
    = Throw (Storage lock_timeout).
Proof.
  assert (faults failing_world = [None; Some lock_timeout]) as F by reflexivity.
  destruct (only_createContentSlot_shields failing_world)
    as (_ & _ & _ & _ & _ & H).
  destruct (H lock_timeout [] (or_intror F)) as (Hd & _ & _ & Hu).
  split_and!; [exact F|exact (Hd 1)|].
  exact (Hu 1 "Banner"%string 1 1 1 3 2 red).
Defined.

(** The methods leave the pool of [failing_world] as they found it. *)
Lemma connection_released_witness :
  leased (deleteOne 1 failing_world).2 = 0%nat
  ∧ leased (createContentSlot "Clock" 1 3 1 5 2 red failing_world).2 = 0%nat.
Proof.
  destruct (connection_released failing_world) as (Hc & Hd & _).
  split.
  - exact (proj1 (Hd 1)).
  - exact (proj1 (Hc "Clock"%string 1 3 1 5 2 red)).
Defined.

(** Slot 1 of [banner_world] read by component type has no options. *)
Lemma getContentSlotsByComponentType_spec_witness :
  ∃ objs, (getContentSlotsByComponentType "Banner" banner_world).1 = Return objs
          ∧ Forall (λ o, options o = ∅) objs.
Proof.
  destruct (getContentSlotsByComponentType_spec "Banner" banner_world)
    as (_ & _ & Hr & H).
  destruct H as [objs H]; [vm_compute; reflexivity|].
  exists objs. split; [exact H|]. rewrite H in Hr. exact (proj2 Hr).
Defined.

(** [updateContentSlot] for the missing slot 7 on the empty database throws
    the foreign key's exception and stores nothing. *)
Lemma updateContentSlot_missing_slot_witness :
  (updateContentSlot 7 "Banner" 1 1 1 3 2 red (empty_world false)).1
  = Throw (Storage er_no_referenced_row)
  ∧ db (updateContentSlot 7 "Banner" 1 1 1 3 2 red (empty_world false)).2
    = db (empty_world false).
Proof.
  assert (red ≠ ∅) as Hred.
  { intros E. apply (f_equal (λ m, m !! "color"%string)) in E.
    vm_compute in E. discriminate E. }
  destruct (updateContentSlot_missing_slot 7 "Banner" 1 1 1 3 2 red
              (empty_world false))
    as (_ & _ & Hdb & _ & Hquiet); [|reflexivity|exact Hred|].
  - intros row Hrow. exfalso. exact (not_elem_of_nil row Hrow).
  - split; [exact (Hquiet eq_refl)|exact Hdb].
Defined.

(** ** What the methods keep, on every exit *)

Lemma keeps_db_ret {A} P (a : A) : keeps_db P (mret a : M World A).
Proof. by intros w. Qed.

Lemma keeps_db_throw {A} P (e : Exn) : keeps_db P (throw e : M World A).
Proof. by intros w. Qed.

Lemma keeps_db_bind {A B} P (m : M World A) (k : A → M World B) :
  keeps_db P m → (∀ a, keeps_db P (k a)) → keeps_db P (m ≫= k).
Proof.
  intros Hm Hk w HP. rewrite bind_eq. specialize (Hm w HP).
  destruct (m w) as [[a|e] w1]; [|done]. by apply Hk.
Qed.

Lemma keeps_db_for_of {A X} P (xs : list X) (body : X → A → M World A) (a : A) :
  (∀ x a', keeps_db P (body x a')) → keeps_db P (for_of xs body a).
Proof.
  intros Hb. revert a. induction xs as [|x xs IH]; intros a; [by intros w|].
  simpl. apply keeps_db_bind; auto.
Qed.

Lemma keeps_db_query P conn s : stmt_keeps P s → keeps_db P (query conn s).
Proof.
  intros Hs w HP. destruct (query_cases conn s w) as [(e & _ & ->)| ->]; [done|].
  simpl. by apply Hs.
Qed.

Lemma keeps_db_getConnection P : keeps_db P getConnection.
Proof.
  intros w HP. unfold getConnection. by destruct (faults w) as [|[e|] fs].
Qed.

Lemma select_keeps P s :
  match s with
  | SELECT_slots_by_view _ | SELECT_slots_by_component _
  | SELECT_options _ | SELECT_options_in _ => stmt_keeps P s
  | _ => True
  end.
Proof. destruct s; try done; by intros fr d. Qed.

Lemma keeps_db_setOptionsForContentSlot P conn i D :
  (∀ s, on_slot i s = true → stmt_keeps P s) →
  keeps_db P (setOptionsForContentSlot conn i D).
Proof.
  intros Hs.
  assert (∀ s, on_slot i s = true → keeps_db P (query conn s)) as Hq.
  { intros s E. by apply keeps_db_query, Hs. }
  assert (∀ j : Z, bool_decide (j = j) = true) as Hii.
  { intros j. by apply bool_decide_eq_true. }
  apply keeps_db_bind.
  { apply keeps_db_bind; [apply (Hq (SELECT_options i)), Hii|].
    intros. apply keeps_db_ret. }
  intros E. apply keeps_db_bind.
  - apply keeps_db_for_of. intros k b. unfold remove_stale.
    destruct (negb (hasOwnProperty D k)); [|apply keeps_db_ret].
    apply keeps_db_bind; [apply (Hq (DELETE_option i k)), Hii|].
    intros. apply keeps_db_ret.
  - intros b. apply keeps_db_for_of. intros kv b'. unfold write_entry.
    destruct (Map_has E kv.1).
    + apply keeps_db_bind; [apply (Hq (UPDATE_option kv.2 i kv.1)), Hii|].
      intros. apply keeps_db_ret.
    + apply keeps_db_bind; [apply (Hq (INSERT_option i kv.1 kv.2)), Hii|].
      intros. apply keeps_db_ret.
Qed.

Lemma keeps_db_getOptionsForContentSlots P conn ids :
  keeps_db P (getOptionsForContentSlots conn ids).
Proof.
  apply keeps_db_bind.
  - apply (keeps_db_query P conn (SELECT_options_in ids)),
      (select_keeps P (SELECT_options_in ids)).
  - intros rows. apply keeps_db_for_of. intros row m. unfold fill_options.
    destruct (m !! contentslot_id row); [apply keeps_db_ret|apply keeps_db_throw].
Qed.

Lemma frame_ret {A} P (a : A) : keeps_db_frame P (mret a : M Frame A).
Proof. by intros f. Qed.

Lemma frame_throw {A} P (e : Exn) : keeps_db_frame P (throw e : M Frame A).
Proof. by intros f. Qed.

Lemma frame_lift {A} P (m : M World A) : keeps_db P m → keeps_db_frame P (lift m).
Proof.
  intros Hm [c w] HP. rewrite lift_eq. specialize (Hm w HP).
  by destruct (m w) as [r w1].
Qed.

Lemma frame_bind {A B} P (m : M Frame A) (k : A → M Frame B) :
  keeps_db_frame P m → (∀ a, keeps_db_frame P (k a)) → keeps_db_frame P (m ≫= k).
Proof.
  intros Hm Hk f HP. rewrite bind_eq. specialize (Hm f HP).
  destruct (m f) as [[a|e] f1]; [|done]. by apply Hk.
Qed.

Lemma frame_assign P c : keeps_db_frame P (assign_conn c).
Proof. by intros f. Qed.

Lemma frame_array_map {A B} P (g : A → M Frame B) (xs : list A) :
  (∀ x, keeps_db_frame P (g x)) → keeps_db_frame P (array_map g xs).
Proof.
  intros Hg. induction xs as [|x xs IH]; [by intros f|].
  simpl. apply frame_bind; [done|]. intros y.
  apply frame_bind; [done|]. intros ys. apply frame_ret.
Qed.

Lemma frame_rowToObjectWithOptions P row o :
  keeps_db_frame P (rowToObjectWithOptions row o : M Frame ContentSlot).
Proof. destruct o; [apply frame_ret|apply frame_throw]. Qed.

Lemma frame_catch {A} P (m : M Frame A) (handler : Exn → M Frame A) :
  keeps_db_frame P m → (∀ e, keeps_db_frame P (handler e)) →
  keeps_db_frame P (try_catch m handler).
Proof.
  intros Hm Hh f HP. unfold try_catch. specialize (Hm f HP).
  destruct (m f) as [[a|e] f1]; [done|]. by apply Hh.
Qed.

Lemma frame_createContentSlot_catch P e :
  keeps_db_frame P (createContentSlot_catch e).
Proof. unfold createContentSlot_catch. case_bool_decide; apply frame_throw. Qed.

(** The [finally] block and the return to the caller keep what the [try]
    block keeps. *)
Lemma keeps_db_call {A} P (m : M Frame A) :
  keeps_db_frame P m → keeps_db P (call (try_finally m release_if_conn)).
Proof.
  intros Hm w HP. rewrite call_finally. specialize (Hm (None, w) HP).
  by destruct (m (None, w)) as [r [[c|] w']].
Qed.

Ltac frame_step :=
  first
    [ apply frame_ret
    | apply frame_throw
    | apply frame_assign
    | apply frame_rowToObjectWithOptions
    | apply frame_lift, keeps_db_getConnection
    | apply frame_lift, keeps_db_getOptionsForContentSlots
    | apply frame_array_map; intros
    | apply frame_bind; [|intros] ].

Lemma keeps_db_deleteOne P i :
  stmt_keeps P (DELETE_slot i) → keeps_db P (deleteOne i).
Proof.
  intros Hs. apply keeps_db_call. unfold deleteOne_try.
  frame_step; [frame_step|]. frame_step; [frame_step|].
  frame_step; [|frame_step].
  apply frame_lift. by apply (keeps_db_query P _ (DELETE_slot i)).
Qed.

Lemma keeps_db_getContentSlotsByViewId P v :
  keeps_db P (getContentSlotsByViewId v).
Proof.
  apply keeps_db_call. unfold getContentSlotsByViewId_try.
  frame_step; [frame_step|]. frame_step; [frame_step|].
  frame_step.
  { apply frame_lift, (keeps_db_query P _ (SELECT_slots_by_view v)),
      (select_keeps P (SELECT_slots_by_view v)). }
  case_bool_decide; repeat frame_step.
Qed.

Lemma keeps_db_getContentSlotsByComponentType P ct :
  keeps_db P (getContentSlotsByComponentType ct).
Proof.
  apply keeps_db_call. unfold getContentSlotsByComponentType_try.
  frame_step; [frame_step|]. frame_step; [frame_step|].
  frame_step; [|frame_step].
  apply frame_lift, (keeps_db_query P _ (SELECT_slots_by_component ct)),
    (select_keeps P (SELECT_slots_by_component ct)).
Qed.

Lemma keeps_db_updateContentSlot P i ct v cs rs ce re D :
  stmt_keeps P (UPDATE_slot v ct cs rs ce re i) →
  (∀ s, on_slot i s = true → stmt_keeps P s) →
  keeps_db P (updateContentSlot i ct v cs rs ce re D).
Proof.
  intros Hu Hs. apply keeps_db_call. unfold updateContentSlot_try.
  frame_step; [frame_step|]. frame_step; [frame_step|].
  frame_step.
  { apply frame_lift. by apply (keeps_db_query P _ (UPDATE_slot v ct cs rs ce re i)). }
  frame_step; [|frame_step].
  apply frame_lift. by apply keeps_db_setOptionsForContentSlot.
Qed.

Lemma keeps_db_createContentSlot P ct v cs rs ce re D :
  stmt_keeps P (INSERT_slot v ct cs rs ce re) →
  (∀ i s, on_slot i s = true → stmt_keeps P s) →
  keeps_db P (createContentSlot ct v cs rs ce re D).
Proof.
  intros Hu Hs. apply keeps_db_call.
  apply frame_catch; [|apply frame_createContentSlot_catch].
  unfold createContentSlot_try.
  frame_step; [frame_step|]. frame_step; [frame_step|].
  frame_step.
  { apply frame_lift. by apply (keeps_db_query P _ (INSERT_slot v ct cs rs ce re)). }
  frame_step; [|frame_step].
  apply frame_lift. apply keeps_db_setOptionsForContentSlot. apply Hs.
Qed.

(** X2. The two reading methods never change the database, whether they
    return or throw. *)
Theorem readers_leave_database (w : World) :
  (∀ v, db (getContentSlotsByViewId v w).2 = db w)
  ∧ (∀ ct, db (getContentSlotsByComponentType ct w).2 = db w).
Proof.
  split; intros.
  - by apply (keeps_db_getContentSlotsByViewId (λ d, d = db w)).
  - by apply (keeps_db_getContentSlotsByComponentType (λ d, d = db w)).
Qed.

Lemma delete_first_others i rows :
  List.filter (λ r, negb (slot_has_id i r)) (delete_first i rows) =
  List.filter (λ r, negb (slot_has_id i r)) rows.
Proof.
  induction rows as [|r rows IH]; [done|]. simpl.
  destruct (slot_has_id i r) eqn:E; simpl; [done|]. by rewrite E, IH.
Qed.

Lemma cascade_others (i j : Z) (tbl : list OptionRow) :
  j ≠ i →
  List.filter (option_of_slot j)
    (List.filter (λ r, negb (option_of_slot i r)) tbl)
  = List.filter (option_of_slot j) tbl.
Proof.
  intros Hj. induction tbl as [|r tbl IH]; [done|]. simpl.
  destruct (option_of_slot i r) eqn:E; simpl.
  - apply bool_decide_eq_true in E.
    by rewrite option_of_slot_false by congruence.
  - by rewrite IH.
Qed.

(** X3. [deleteOne] leaves the rows of the other slots, the option rows
    of the other slots and the auto-increment counter as they are, on any
    exit: whatever goes with the deleted slot row, by the cascade of the
    schema, is a row of that slot. *)
Theorem deleteOne_leaves_rest (i : Z) (w : World) :
  List.filter (λ r, negb (slot_has_id i r)) (contentslots (db (deleteOne i w).2))
  = List.filter (λ r, negb (slot_has_id i r)) (contentslots (db w))
  ∧ (∀ j, j ≠ i →
       List.filter (option_of_slot j) (contentslot_options (db (deleteOne i w).2))
       = List.filter (option_of_slot j) (contentslot_options (db w)))
  ∧ auto_increment (db (deleteOne i w).2) = auto_increment (db w).
Proof.
  apply (keeps_db_deleteOne
           (λ d, List.filter (λ r, negb (slot_has_id i r)) (contentslots d)
                 = List.filter (λ r, negb (slot_has_id i r)) (contentslots (db w))
                 ∧ (∀ j, j ≠ i →
                      List.filter (option_of_slot j) (contentslot_options d)
                      = List.filter (option_of_slot j) (contentslot_options (db w)))
                 ∧ auto_increment d = auto_increment (db w))); [|done].
  intros fr d (Hr & Ho & Ha). simpl. split_and!; [|intros j Hj|done].
  - by rewrite delete_first_others.
  - rewrite <- (Ho j Hj).
    destruct (existsb _ _); [by apply cascade_others|done].
Qed.

Lemma update_slot_ids i (g : SlotRow → SlotRow) rows :
  (∀ r, row_id (g r) = row_id r) →
  List.map row_id (List.map (λ r, if slot_has_id i r then g r else r) rows)
  = List.map row_id rows
  ∧ List.filter (λ r, negb (slot_has_id i r))
      (List.map (λ r, if slot_has_id i r then g r else r) rows)
    = List.filter (λ r, negb (slot_has_id i r)) rows.
Proof.
  intros Hg. induction rows as [|r rows [IH1 IH2]]; [done|]. simpl.
  destruct (slot_has_id i r) eqn:E; simpl.
  - rewrite Hg, IH1. split; [done|].
    assert (slot_has_id i (g r) = true) as ->; [|done].
    unfold slot_has_id in *. apply bool_decide_eq_true.
    apply bool_decide_eq_true in E. by rewrite Hg.
  - by rewrite E, IH1, IH2.
Qed.

Lemma on_slot_keeps_others (i j : Z) (rows : list OptionRow) (s : Stmt) :
  j ≠ i → on_slot i s = true →
  stmt_keeps (λ d, List.filter (option_of_slot j) (contentslot_options d) = rows) s.
Proof.
  intros Hj Hs fr d Hd.
  destruct s as [| | | | |i'|ids|i' k|x i' k|i' k x]; try done; simpl in Hs;
    apply bool_decide_eq_true in Hs; subst i'; simpl; try done.
  - rewrite <- Hd.
    apply (other_rows_delete i (mkWorld d false 0 0 [] []) k j Hj).
  - rewrite <- Hd.
    apply (other_rows_update i (mkWorld d false 0 0 [] []) k x j Hj).
  - destruct (existsb (option_is _ _) _); [done|].
    destruct (existsb (slot_has_id _) _); [|done].
    simpl. rewrite List.filter_app. simpl.
    rewrite option_of_slot_false by (simpl; congruence). by rewrite app_nil_r.
Qed.

Lemma on_slot_keeps_slots (i : Z) (P : list SlotRow → Z → Prop) (s : Stmt) :
  on_slot i s = true →
  stmt_keeps (λ d, P (contentslots d) (auto_increment d)) s.
Proof.
  intros Hs fr d Hd.
  destruct s as [| | | | |i'|ids|i' k|x i' k|i' k x]; try done; simpl.
  destruct (existsb (option_is _ _) _); [done|].
  by destruct (existsb (slot_has_id _) _).
Qed.

(** X4. [updateContentSlot] never adds or removes a slot row and never
    changes an id; the rows of other slots, the option rows of other slots
    and the auto-increment counter are as before, on every exit. *)
Theorem updateContentSlot_leaves_rest
    (i : Z) (ct : string) (v cs rs ce re : Z) (D : gmap string string)
    (w : World) :
  let w' := (updateContentSlot i ct v cs rs ce re D w).2 in
  List.map row_id (contentslots (db w')) = List.map row_id (contentslots (db w))
  ∧ List.filter (λ r, negb (slot_has_id i r)) (contentslots (db w'))
    = List.filter (λ r, negb (slot_has_id i r)) (contentslots (db w))
  ∧ auto_increment (db w') = auto_increment (db w)
  ∧ ∀ j, j ≠ i →
      List.filter (option_of_slot j) (contentslot_options (db w'))
      = List.filter (option_of_slot j) (contentslot_options (db w)).
Proof.
  intros w'. subst w'.
  assert (∀ r, row_id (mkSlotRow (row_id r) v ct cs rs ce re) = row_id r) as Hg
    by done.
  split_and!.
  - apply (keeps_db_updateContentSlot
             (λ d, List.map row_id (contentslots d)
                   = List.map row_id (contentslots (db w)))); [| |done].
    + intros fr d Hd. simpl. rewrite <- Hd.
      by apply (update_slot_ids i (λ r, mkSlotRow (row_id r) v ct cs rs ce re)).
    + intros s Hs.
      by apply (on_slot_keeps_slots i
                  (λ rows _, List.map row_id rows
                             = List.map row_id (contentslots (db w)))).
  - apply (keeps_db_updateContentSlot
             (λ d, List.filter (λ r, negb (slot_has_id i r)) (contentslots d)
                   = List.filter (λ r, negb (slot_has_id i r))
                                 (contentslots (db w)))); [| |done].
    + intros fr d Hd. simpl. rewrite <- Hd.
      by apply (update_slot_ids i (λ r, mkSlotRow (row_id r) v ct cs rs ce re)).
    + intros s Hs.
      by apply (on_slot_keeps_slots i
                  (λ rows _, List.filter (λ r, negb (slot_has_id i r)) rows
                             = List.filter (λ r, negb (slot_has_id i r))
                                           (contentslots (db w)))).
  - apply (keeps_db_updateContentSlot
             (λ d, auto_increment d = auto_increment (db w))); [| |done].
    + by intros fr d Hd.
    + intros s Hs.
      by apply (on_slot_keeps_slots i (λ _ n, n = auto_increment (db w))).
  - intros j Hj.
    apply (keeps_db_updateContentSlot
             (λ d, List.filter (option_of_slot j) (contentslot_options d)
                   = List.filter (option_of_slot j) (contentslot_options (db w))));
      [| |done].
    + by intros fr d Hd.
    + intros s Hs. by apply (on_slot_keeps_others i j).
Qed.

(** X5. [createContentSlot] never removes or alters a stored slot row: on
    every exit the slot table starts with the rows it had. *)
Theorem createContentSlot_keeps_slots
    (ct : string) (v cs rs ce re : Z) (D : gmap string string) (w : World) :
  ∃ rest,
    contentslots (db (createContentSlot ct v cs rs ce re D w).2)
    = contentslots (db w) ++ rest.
Proof.
  apply (keeps_db_createContentSlot
           (λ d, ∃ rest, contentslots d = contentslots (db w) ++ rest)).
  - intros fr d [rest Hd]. simpl. destruct (existsb _ _); simpl.
    + by exists rest.
    + eexists. by rewrite Hd, <- app_assoc.
  - intros i s Hs.
    by apply (on_slot_keeps_slots i
                (λ rows _, ∃ rest, rows = contentslots (db w) ++ rest)).
  - exists []. by rewrite app_nil_r.
Qed.

(** ** Reading the options of one slot *)

Lemma slot_options_covers (tbl : list OptionRow) (i : Z) (r : OptionRow) :
  r ∈ tbl → contentslot_id r = i → is_Some (slot_options tbl i !! name r).
Proof.
  intros Hin Hi.
  assert (existsb (option_is i (name r)) tbl = true) as Hx.
  { apply existsb_exists. exists r. split; [by apply list_elem_of_In|].
    by apply option_is_spec. }
  rewrite slot_options_exists in Hx. by apply bool_decide_eq_true in Hx.
Qed.

Lemma slot_options_unique (tbl : list OptionRow) (i : Z) (r : OptionRow) :
  unique_options tbl → r ∈ tbl → contentslot_id r = i →
  slot_options tbl i !! name r = Some (value r).
Proof.
  induction tbl as [|r0 tbl IH] using rev_ind; [by intros _ ?%elem_of_nil|].
  intros [Hu He]%unique_options_snoc Hin Hi. rewrite slot_options_snoc.
  apply elem_of_app in Hin as [Hin| ->%list_elem_of_singleton].
  - destruct (bool_decide_reflect (contentslot_id r0 = i)) as [Hi0|Hi0];
      [|by apply IH].
    rewrite lookup_insert_ne; [by apply IH|]. intros Hname.
    apply not_true_iff_false in He. apply He, existsb_exists. exists r.
    split; [by apply list_elem_of_In|]. apply option_is_spec. by rewrite Hi, Hi0.
  - rewrite bool_decide_eq_true_2 by done. by rewrite lookup_insert_eq.
Qed.

Lemma getOptionsForContentSlot_run (conn : Conn) (i : Z) (w : World) :
  match getOptionsForContentSlot conn i w with
  | (Return m, w') =>
      m = stored_options w i ∧ w' = answered conn (SELECT_options i) (db w) w
  | (Throw e, w') => scheduled e w ∧ db w' = db w
  end.
Proof.
  unfold getOptionsForContentSlot. rewrite bind_eq.
  by destruct (query_cases conn (SELECT_options i) w) as [(e & He & ->)| ->].
Qed.

(** X6. [getOptionsForContentSlot] issues one SELECT and leaves the
    database alone. Every entry of the map it returns is an option row of
    the slot and every option row of the slot has its name as a key; with
    the unique key in force the entries are exactly the rows. It throws only
    on a scheduled storage failure. *)
Theorem getOptionsForContentSlot_rows (conn : Conn) (i : Z) (w : World) :
  match getOptionsForContentSlot conn i w with
  | (Return m, w') =>
      db w' = db w
      ∧ log w' = log w ++ [(conn, SELECT_options i)]
      ∧ (∀ k x, m !! k = Some x →
                mkOptionRow i k x ∈ contentslot_options (db w))
      ∧ (∀ r, r ∈ contentslot_options (db w) → contentslot_id r = i →
              is_Some (m !! name r))
      ∧ (unique_options (contentslot_options (db w)) →
         ∀ r, r ∈ contentslot_options (db w) → contentslot_id r = i →
              m !! name r = Some (value r))
  | (Throw e, w') => scheduled e w ∧ db w' = db w
  end.
Proof.
  pose proof (getOptionsForContentSlot_run conn i w) as H.
  destruct (getOptionsForContentSlot conn i w) as [[m|e] w']; [|done].
  destruct H as [-> ->]. split_and!; [done|done| | |].
  - intros k x. apply slot_options_row.
  - intros r. apply slot_options_covers.
  - intros Hu r. by apply slot_options_unique.
Qed.

(** X7. Writing then reading: after a completed
    [setOptionsForContentSlot] for a slot, [getOptionsForContentSlot] for
    that slot returns the map that was written, whatever was stored before
    and on whichever connection it reads. *)
Theorem options_write_read
    (conn conn' : Conn) (i : Z) (D m : gmap string string)
    (w w1 w2 : World) (b : bool) :
  setOptionsForContentSlot conn i D w = (Return b, w1) →
  getOptionsForContentSlot conn' i w1 = (Return m, w2) →
  m = D.
Proof.
  intros Hset Hget.
  pose proof (synchronize_spec conn i D w) as H. rewrite Hset in H.
  destruct H as (_ & Hv & _).
  pose proof (getOptionsForContentSlot_run conn' i w1) as H. rewrite Hget in H.
  destruct H as [-> _]. done.
Qed.

(** X8. The batch read agrees with the single read: for every requested
    id the map of maps holds what [getOptionsForContentSlot] returns for
    that id, and it holds nothing for an id that was not requested. *)
Theorem batch_read_agrees
    (conn : Conn) (ids : list Z) (w w1 : World)
    (m : gmap Z (gmap string string)) :
  getOptionsForContentSlots conn ids w = (Return m, w1) →
  db w1 = db w
  ∧ (∀ j, j ∉ ids → m !! j = None)
  ∧ (∀ j conn' m' w2, j ∈ ids →
       getOptionsForContentSlot conn' j w = (Return m', w2) →
       m !! j = Some m').
Proof.
  intros Hrun. pose proof (getOptionsForContentSlots_spec conn ids w) as H.
  rewrite Hrun in H. destruct H as [-> Hm]. split_and!; [done| |].
  - intros j Hj. by rewrite Hm, bool_decide_eq_false_2.
  - intros j conn' m' w2 Hj Hget.
    pose proof (getOptionsForContentSlot_run conn' j w) as H. rewrite Hget in H.
    destruct H as [-> _]. by rewrite Hm, bool_decide_eq_true_2.
Qed.

(** X9. Synchronizing with the empty object: every option row of the
    slot is deleted, one DELETE per stored key and no other write, and the
    flag is set exactly when at least one option was stored, under either
    driver setting and with or without the unique key. *)
Theorem setOptionsForContentSlot_empty (conn : Conn) (i : Z) (w : World) :
  match setOptionsForContentSlot conn i ∅ w with
  | (Return b, w') =>
      (b = true ↔ stored_options w i ≠ ∅)
      ∧ (∀ r, r ∈ contentslot_options (db w') → contentslot_id r ≠ i)
      ∧ log w' =
          log w ++ (conn, SELECT_options i)
                   :: List.map (λ k, (conn, DELETE_option i k))
                               (Map_keys (stored_options w i))
  | (Throw e, _) => scheduled e w
  end.
Proof.
  pose proof (synchronize_spec conn i ∅ w) as Hspec.
  destruct (setOptionsForContentSlot conn i ∅ w) as [[b|e] w'] eqn:Hrun.
  2:{ destruct Hspec as [H|[_ (k & _ & [x Hx])]]; [by eapply raised_scheduled|].
      by rewrite lookup_empty in Hx. }
  destruct Hspec as (_ & _ & Hr & Hl & _).
  assert (List.filter (λ k, negb (hasOwnProperty ∅ k))
                      (Map_keys (stored_options w i))
          = Map_keys (stored_options w i)) as Hall.
  { induction (Map_keys (stored_options w i)) as [|k l IH]; [done|].
    simpl. by rewrite IH. }
  split_and!.
  - unfold setOptionsForContentSlot, getOptionsForContentSlot in Hrun.
    rewrite !bind_eq in Hrun.
    destruct (query_cases conn (SELECT_options i) w) as [(e & F & Hq)|Hq];
      rewrite Hq in Hrun; [done|].
    cbn [exec fst snd] in Hrun.
    change (rows_to_map _) with (stored_options w i) in Hrun.
    unfold mret at 1, M_ret, ret in Hrun. rewrite bind_eq in Hrun.
    pose proof (remove_stale_loop conn i ∅ (Map_keys (stored_options w i)) false
                  (answered conn (SELECT_options i) (db w) w)) as L1.
    destruct (for_of (Map_keys (stored_options w i)) (remove_stale conn i ∅) false _)
      as [[b1|e] w1]; [|done].
    destruct L1 as (_ & _ & _ & _ & Hb1).
    unfold Object_entries in Hrun. rewrite map_to_list_empty in Hrun.
    simpl in Hrun. injection Hrun as <- _. rewrite Hb1. simpl.
    assert (existsb (λ k, negb (hasOwnProperty ∅ k)) (Map_keys (stored_options w i))
            = negb (bool_decide (Map_keys (stored_options w i) = []))) as ->.
    { by destruct (Map_keys (stored_options w i)). }
    rewrite negb_true_iff, bool_decide_eq_false. unfold Map_keys.
    split; intros Hne Heq; apply Hne.
    + by rewrite Heq, map_to_list_empty.
    + apply fmap_nil_inv in Heq. by apply map_to_list_empty_iff in Heq.
  - intros r Hin Hi. specialize (Hr r Hin Hi). by rewrite lookup_empty in Hr.
  - rewrite Hl. unfold synchronize_log, Object_entries.
    rewrite Hall, map_to_list_empty. simpl. by rewrite app_nil_r.
Qed.

(** ** Synchronizing twice *)

Lemma update_option_settled (tbl : list OptionRow) (v : string) (i : Z) (k : string) :
  (∀ r, r ∈ tbl → option_is i k r = true → value r = v) →
  List.map (λ r, if option_is i k r
                 then mkOptionRow (contentslot_id r) (name r) v else r) tbl
  = tbl.
Proof.
  induction tbl as [|r tbl IH]; [done|]. intros H. simpl.
  rewrite IH by (intros r' Hr'; apply H; by apply list_elem_of_further).
  destruct (option_is i k r) eqn:E; [|done].
  rewrite <- (H r (list_elem_of_here _ _) E). by destruct r.
Qed.

Lemma remove_stale_nothing conn i (D : gmap string string) (l : list string) b w :
  (∀ k, k ∈ l → hasOwnProperty D k = true) →
  for_of l (remove_stale conn i D) b w = (Return b, w).
Proof.
  induction l as [|k l IH]; [done|]. intros H. simpl. rewrite bind_eq.
  unfold remove_stale at 1. rewrite (H k) by apply list_elem_of_here. simpl.
  apply IH. intros k' Hk'. apply H. by apply list_elem_of_further.
Qed.

Lemma write_entry_settled conn i (E : gmap string string)
    (l : list (string * string)) b w :
  (∀ kv, kv ∈ l →
     Map_has E kv.1 = true
     ∧ ∀ r, r ∈ contentslot_options (db w) → option_is i kv.1 r = true →
            value r = kv.2) →
  match for_of l (write_entry conn i E) b w with
  | (Return _, w') => db w' = db w
  | (Throw _, _) => True
  end.
Proof.
  revert b w. induction l as [|[k v] l IH]; intros b w H; [done|].
  destruct (H (k, v)) as [HE Hrows]; [apply list_elem_of_here|].
  simpl in HE, Hrows. simpl. rewrite bind_eq. unfold write_entry at 1. simpl.
  rewrite HE, bind_eq.
  destruct (query_cases conn (UPDATE_option v i k) w) as [(e & F & ->)| ->];
    [done|].
  set (w1 := answered _ _ _ _).
  assert (db w1 = db w) as Hdb.
  { unfold w1. simpl. rewrite update_option_settled by done. by destruct (db w). }
  simpl. set (b1 := if bool_decide _ then true else b).
  specialize (IH b1 w1). rewrite Hdb in IH.
  destruct (for_of l (write_entry conn i E) b1 w1) as [[b'|e] w']; [|done].
  apply IH. intros kv Hkv. apply H. by apply list_elem_of_further.
Qed.

(** X10. Synchronizing is idempotent on the rows: a second completed
    [setOptionsForContentSlot] with the same options, right after a
    completed one, leaves the whole database as it is. It issues its SELECT
    and one UPDATE per entry, no DELETE and no INSERT. It can only fail on a
    scheduled storage failure. *)
Theorem setOptionsForContentSlot_again
    (conn conn' : Conn) (i : Z) (D : gmap string string)
    (w w1 : World) (b : bool) :
  setOptionsForContentSlot conn i D w = (Return b, w1) →
  match setOptionsForContentSlot conn' i D w1 with
  | (Return _, w2) =>
      db w2 = db w1
      ∧ log w2 =
          log w1 ++ (conn', SELECT_options i)
                    :: List.map (λ kv, (conn', UPDATE_option kv.2 i kv.1))
                                (Object_entries D)
  | (Throw e, _) => scheduled e w1
  end.
Proof.
  intros Hrun. pose proof (synchronize_spec conn i D w) as H.
  rewrite Hrun in H. destruct H as (_ & Hv & Hr & _).
  pose proof (synchronize_spec conn' i D w1) as Hspec.
  destruct (setOptionsForContentSlot conn' i D w1) as [[b2|e] w2] eqn:Hrun2.
  2:{ destruct Hspec as [H|[_ (k & Hk & [x Hx])]]; [by eapply raised_scheduled|].
      rewrite Hv in Hk. congruence. }
  destruct Hspec as (_ & _ & _ & Hl & _).
  assert (∀ k, k ∈ Map_keys D → hasOwnProperty D k = true) as Hkeys.
  { intros k Hk. apply bool_decide_eq_true. by apply Map_keys_spec. }
  split.
  - unfold setOptionsForContentSlot, getOptionsForContentSlot in Hrun2.
    rewrite !bind_eq in Hrun2.
    destruct (query_cases conn' (SELECT_options i) w1) as [(e & F & Hq)|Hq];
      rewrite Hq in Hrun2; [done|].
    cbn [exec fst snd] in Hrun2.
    change (rows_to_map _) with (stored_options w1 i) in Hrun2.
    rewrite Hv in Hrun2.
    unfold mret at 1, M_ret, ret in Hrun2. rewrite bind_eq in Hrun2.
    rewrite remove_stale_nothing in Hrun2 by done.
    set (w0 := answered _ _ _ _) in Hrun2.
    pose proof (write_entry_settled conn' i D (Object_entries D) false w0) as L2.
    rewrite Hrun2 in L2. apply L2.
    intros [k v] Hkv. apply elem_of_map_to_list in Hkv. simpl. split.
    + apply bool_decide_eq_true. eauto.
    + intros r Hin [Hi Hk]%option_is_spec. specialize (Hr r Hin Hi).
      rewrite Hk, Hkv in Hr. by injection Hr.
  - rewrite Hl, Hv. unfold synchronize_log.
    assert (List.filter (λ k, negb (hasOwnProperty D k)) (Map_keys D) = []) as ->.
    { induction (Map_keys D) as [|k l IH]; [done|]. simpl.
      rewrite (Hkeys k) by apply list_elem_of_here. simpl.
      apply IH. intros k' Hk'. apply Hkeys. by apply list_elem_of_further. }
    simpl. do 2 f_equal. apply map_ext_in. intros [k v] Hkv.
    apply list_elem_of_In, elem_of_map_to_list in Hkv.
    unfold write_stmt, Map_has. simpl. by rewrite bool_decide_eq_true_2 by eauto.
Qed.

(** ** How the methods compose *)

Lemma createContentSlot_run ct v cs rs ce re (D : gmap string string) (w : World) :
  match createContentSlot ct v cs rs ce re D w with
  | (Return i, w') =>
      i = auto_increment (db w)
      ∧ existsb (slot_has_id i) (contentslots (db w)) = false
      ∧ contentslots (db w') = contentslots (db w) ++ [mkSlotRow i v ct cs rs ce re]
      ∧ stored_options w' i = D
      ∧ (∀ j, j ≠ i →
           List.filter (option_of_slot j) (contentslot_options (db w'))
           = List.filter (option_of_slot j) (contentslot_options (db w)))
      ∧ found_rows w' = found_rows w
      ∧ (unique_options (contentslot_options (db w)) →
         unique_options (contentslot_options (db w')))
  | (Throw e, _) =>
      faults w ≠ []
      ∨ existsb (slot_has_id (auto_increment (db w))) (contentslots (db w)) = true
  end.
Proof.
  unfold createContentSlot. rewrite call_finally. unfold try_catch.
  rewrite createContentSlot_try_eq.
  assert (∀ e f, ∃ e', createContentSlot_catch e f = (Throw e', f)) as Hcatch.
  { intros e f. unfold createContentSlot_catch. case_bool_decide; by eexists. }
  destruct (getConnection_cases w) as [(e & w' & He & -> & _)| ->].
  { match goal with
    | |- context [createContentSlot_catch ?x ?f] =>
        destruct (Hcatch x f) as (e' & ->)
    end.
    simpl. left. by apply scheduled_quiet in He. }
  destruct (query_cases (acquired w) (INSERT_slot v ct cs rs ce re) (connected w))
    as [(e & He & ->)| ->].
  { match goal with
    | |- context [createContentSlot_catch ?x ?f] =>
        destruct (Hcatch x f) as (e' & ->)
    end.
    simpl. left. apply scheduled_quiet in He. simpl in He.
    intros F. by rewrite F in He. }
  change (found_rows (connected w)) with (found_rows w).
  change (db (connected w)) with (db w).
  cbn [exec].
  destruct (existsb (slot_has_id (auto_increment (db w))) (contentslots (db w)))
    eqn:Hpk.
  { cbn [fst snd].
    match goal with
    | |- context [createContentSlot_catch ?x ?f] =>
        destruct (Hcatch x f) as (e' & ->)
    end.
    simpl. by right. }
  cbn [fst snd insertId].
  set (i := auto_increment (db w)) in *.
  set (w1 := answered _ _ _ _).
  pose proof (synchronize_spec (acquired w) i D w1) as H.
  destruct (setOptionsForContentSlot (acquired w) i D w1) as [[changed|e] w2].
  2:{ match goal with
      | |- context [createContentSlot_catch ?x ?f] =>
          destruct (Hcatch x f) as (e' & ->)
      end.
      simpl. left. destruct H as [H|[H _]].
      - apply raised_scheduled, scheduled_quiet in H. simpl in H.
        intros F. by rewrite F in H.
      - exfalso. revert H. apply refused_stored. unfold w1. simpl.
        apply inserted_slot_exists. }
  destruct H as (Hs & Hv & _). simpl. split_and!; try done.
  - by rewrite (step_slots _ _ _ Hs).
  - intros j Hj. by rewrite (step_other_slots _ _ _ Hs j Hj).
  - by rewrite (step_found_rows _ _ _ Hs).
  - intros Hu. by apply Hs.
Qed.

Lemma getContentSlotsByViewId_returns (v : Z) (w w' : World) objs :
  getContentSlotsByViewId v w = (Return objs, w') →
  objs = List.map
           (λ row, set_options (rowToObject row)
                               (flatten (stored_options w (row_id row))))
           (slots_of_view v w).
Proof.
  unfold getContentSlotsByViewId. rewrite call_finally.
  unfold getContentSlotsByViewId_try. rewrite (try_open (λ conn, _)).
  destruct (getConnection_cases w) as [(e & w0 & He & -> & _)| ->]; [done|].
  rewrite bind_eq, lift_eq.
  destruct (query_cases (acquired w) (SELECT_slots_by_view v) (connected w))
    as [(e & He & ->)| ->]; [done|].
  cbn [exec fst snd]. change (db (connected w)) with (db w).
  fold (slots_of_view v w). set (rows := slots_of_view v w).
  case_bool_decide as Hlen.
  { apply length_zero_iff_nil in Hlen. rewrite Hlen. by intros [= <- _]. }
  set (w1 := answered _ _ _ _).
  rewrite bind_eq, lift_eq.
  pose proof (getOptionsForContentSlots_spec (acquired w) (List.map row_id rows) w1)
    as H.
  destruct (getOptionsForContentSlots _ _ w1) as [[m|e] w2]; [|done].
  destruct H as [-> Hm].
  rewrite (array_map_pure _
             (λ row, set_options (rowToObject row)
                                 (flatten (stored_options w (row_id row))))).
  - by intros [= <- _].
  - intros row Hrow. rewrite Hm, bool_decide_eq_true_2; [done|].
    apply list_elem_of_In, in_map. by apply list_elem_of_In.
Qed.

Lemma deleteOne_returns (i : Z) (w w' : World) (r : option Z) :
  deleteOne i w = (Return r, w') →
  r = (if existsb (slot_has_id i) (contentslots (db w)) then Some i else None)
  ∧ contentslots (db w') = delete_first i (contentslots (db w)).
Proof.
  unfold deleteOne. rewrite call_finally, deleteOne_try_eq.
  destruct (getConnection_cases w) as [(e & w0 & He & -> & _)| ->]; [done|].
  destruct (query_cases (acquired w) (DELETE_slot i) (connected w))
    as [(e & He & ->)| ->]; [done|].
  simpl. intros [= <- <-]. split; [|done]. by destruct (existsb _ _).
Qed.

Lemma slots_of_view_snoc v w w' row :
  contentslots (db w') = contentslots (db w) ++ [row] →
  slots_of_view v w' =
    slots_of_view v w ++ (if bool_decide (view_id row = v) then [row] else []).
Proof. intros H. unfold slots_of_view. by rewrite H, List.filter_app. Qed.

(** X11. Creating then reading: after a completed [createContentSlot],
    [getContentSlotsByViewId] for the view of the new slot returns what it
    would have returned before, followed by the new slot with its id, the
    fields given and the options given, except that an option named
    [__proto__] is stored but not handed back. *)
Theorem create_then_read
    (ct : string) (v cs rs ce re : Z) (D : gmap string string)
    (w w1 w2 : World) (i : Z) (objs : list ContentSlot) :
  createContentSlot ct v cs rs ce re D w = (Return i, w1) →
  getContentSlotsByViewId v w1 = (Return objs, w2) →
  objs =
    List.map (λ row, set_options (rowToObject row)
                                 (flatten (stored_options w (row_id row))))
             (slots_of_view v w)
    ++ [mkContentSlot i ct v cs rs ce re (delete "__proto__"%string D)]
  ∧ stored_options w1 i = D.
Proof.
  intros Hc Hg. pose proof (createContentSlot_run ct v cs rs ce re D w) as H.
  rewrite Hc in H. destruct H as (Hi & Hpk & Hrows & Hv & Hothers & _).
  split; [|done]. apply getContentSlotsByViewId_returns in Hg. rewrite Hg.
  rewrite (slots_of_view_snoc v w w1 _ Hrows). simpl.
  rewrite bool_decide_eq_true_2 by done. rewrite List.map_app. simpl.
  rewrite Hv, flatten_eq. f_equal.
  apply map_ext_in. intros row Hrow. do 2 f_equal.
  unfold stored_options, slot_options. rewrite Hothers; [done|].
  intros Heq. apply filter_In in Hrow as [Hrow _].
  apply not_true_iff_false in Hpk. apply Hpk, existsb_exists.
  exists row. split; [done|]. by apply bool_decide_eq_true.
Qed.

(** X12. Creating then deleting: [deleteOne] with the id a completed
    [createContentSlot] returned, when it returns, returns that id, and the
    slot table is back to the rows it had before the creation. *)
Theorem create_then_delete
    (ct : string) (v cs rs ce re : Z) (D : gmap string string)
    (w w1 w2 : World) (i : Z) (r : option Z) :
  createContentSlot ct v cs rs ce re D w = (Return i, w1) →
  deleteOne i w1 = (Return r, w2) →
  r = Some i ∧ contentslots (db w2) = contentslots (db w).
Proof.
  intros Hc Hd. pose proof (createContentSlot_run ct v cs rs ce re D w) as H.
  rewrite Hc in H. destruct H as (Hi & Hpk & Hrows & _).
  apply deleteOne_returns in Hd as [-> ->]. rewrite Hrows.
  assert (∀ n x y z u t, slot_has_id i (mkSlotRow i n x y z u t) = true) as Hnew.
  { intros. by apply bool_decide_eq_true. }
  rewrite existsb_app. simpl. rewrite Hnew, Hpk. split; [done|].
  clear Hrows. induction (contentslots (db w)) as [|row rows IH]; simpl.
  - by rewrite Hnew.
  - simpl in Hpk. apply orb_false_iff in Hpk as [-> Hpk]. by rewrite IH.
Qed.

Lemma delete_first_gone i rows :
  unique_slots rows → existsb (slot_has_id i) (delete_first i rows) = false.
Proof.
  unfold unique_slots. induction rows as [|r rows IH]; [done|]. simpl.
  intros [Hr Hnd]%NoDup_cons. destruct (slot_has_id i r) eqn:E; simpl.
  - apply bool_decide_eq_true in E. apply not_true_iff_false.
    intros (r' & Hin & E')%existsb_exists. apply bool_decide_eq_true in E'.
    apply Hr. apply list_elem_of_In, in_map_iff. exists r'.
    split; [congruence|done].
  - rewrite E. by apply IH.
Qed.

(** X13. Deleting twice: with the primary key of the slot table in
    force, a [deleteOne] that returns right after a completed [deleteOne] of
    the same id returns [None]: no row with that id is left. *)
Theorem delete_then_delete (i : Z) (w w1 w2 : World) (r r2 : option Z) :
  unique_slots (contentslots (db w)) →
  deleteOne i w = (Return r, w1) →
  deleteOne i w1 = (Return r2, w2) →
  r2 = None ∧ ∀ row, row ∈ contentslots (db w1) → row_id row ≠ i.
Proof.
  intros Hu [_ H1]%deleteOne_returns [-> _]%deleteOne_returns.
  pose proof (delete_first_gone i _ Hu) as Hgone. rewrite <- H1 in Hgone.
  rewrite Hgone. split; [done|]. intros row Hrow Hi.
  apply not_true_iff_false in Hgone. apply Hgone, existsb_slot_has_id. eauto.
Qed.

(** X14. Creating then updating with the same arguments: with a driver
    that reports changed rows and the unique key of the option table in
    force, [updateContentSlot] with the id, fields and options of a
    completed [createContentSlot], when it returns, returns [None]. *)
Theorem create_then_update_same
    (ct : string) (v cs rs ce re : Z) (D : gmap string string)
    (w w1 w2 : World) (i : Z) (r : option Z) :
  found_rows w = false →
  unique_options (contentslot_options (db w)) →
  createContentSlot ct v cs rs ce re D w = (Return i, w1) →
  updateContentSlot i ct v cs rs ce re D w1 = (Return r, w2) →
  r = None.
Proof.
  intros Hfr Hu Hc Hup.
  pose proof (createContentSlot_run ct v cs rs ce re D w) as H.
  rewrite Hc in H. destruct H as (Hi & Hpk & Hrows & Hv & _ & Hfr1 & Hu1).
  pose proof (updateContentSlot_run i ct v cs rs ce re D w1) as H.
  rewrite Hup in H. destruct H as (pkt & changed & w3 & Hex & Hsync & _ & ->).
  set (w1' := answered _ _ _ _) in *.
  rewrite Hfr in Hfr1.
  assert (affectedRows pkt = 0) as ->.
  { rewrite Hfr1 in Hex. apply (f_equal fst) in Hex. simpl in Hex.
    injection Hex as <-. simpl. apply no_row_changes.
    intros row Hrow Hid. rewrite Hrows in Hrow.
    apply elem_of_app in Hrow as [Hrow| ->%list_elem_of_singleton].
    - exfalso. apply not_true_iff_false in Hpk. apply Hpk, existsb_slot_has_id.
      eauto.
    - apply same_fields_updated. }
  pose proof (synchronize_spec (acquired w1) i D w1') as Hspec.
  rewrite Hsync in Hspec. destruct Hspec as (_ & _ & _ & _ & Hb & _).
  assert (changed = false) as ->; [|done].
  rewrite Hb.
  - change (found_rows w1') with (found_rows w1). rewrite Hfr1.
    apply options_changed_changed_rows.
    change (stored_options w1' i) with
      (slot_options
         (contentslot_options (exec (found_rows w1)
            (UPDATE_slot v ct cs rs ce re i) (db w1)).2) i).
    simpl. exact Hv.
  - unfold w1'. simpl. by apply Hu1.
Qed.


(** X15. No rollback: when the pool and the INSERT of the slot row
    succeed and the next statement, the synchronizer's SELECT, fails,
    [createContentSlot] throws its typed failure for that error, yet the new
    slot row stays stored; the connection is released all the same. *)
Theorem createContentSlot_no_rollback
    (ct : string) (v cs rs ce re : Z) (D : gmap string string)
    (w : World) (e : SqlError) (fs : list (option SqlError)) :
  faults w = None :: None :: Some e :: fs →
  existsb (slot_has_id (auto_increment (db w))) (contentslots (db w)) = false →
  let r := createContentSlot ct v cs rs ce re D w in
  r.1 = Throw (if bool_decide (errno e = 1062)
               then DuplicateEntryError (Some (code e))
               else Error (Some (code e)))
  ∧ contentslots (db r.2)
    = contentslots (db w)
      ++ [mkSlotRow (auto_increment (db w)) v ct cs rs ce re]
  ∧ contentslot_options (db r.2) = contentslot_options (db w)
  ∧ leased r.2 = leased w.
Proof.
  intros Hf Hpk r. subst r. unfold createContentSlot.
  rewrite call_finally. unfold try_catch. rewrite createContentSlot_try_eq.
  set (i := auto_increment (db w)) in *.
  set (d1 := mkDb (contentslots (db w) ++ [mkSlotRow i v ct cs rs ce re])
                  (contentslot_options (db w)) (i + 1)).
  set (w1 := answered (acquired w) (INSERT_slot v ct cs rs ce re) d1 (connected w)).
  assert (getConnection w = (Return (acquired w), connected w)) as ->.
  { unfold getConnection, connected. by rewrite Hf. }
  assert (query (acquired w) (INSERT_slot v ct cs rs ce re) (connected w)
          = (Return (mkOk 1 i), w1)) as ->.
  { unfold query, connected. simpl. rewrite Hf. simpl. fold i. rewrite Hpk.
    unfold w1, answered. simpl. by rewrite Hf. }
  cbn [insertId].
  assert (setOptionsForContentSlot (acquired w) i D w1
          = (Throw (Storage e), answered (acquired w) (SELECT_options i) d1 w1))
    as ->.
  { unfold setOptionsForContentSlot, getOptionsForContentSlot.
    rewrite !bind_eq. unfold query, w1, answered, connected. simpl.
    by rewrite Hf. }
  rewrite createContentSlot_catch_eq. done.
Qed.

(** X16. [rowToObjectWithOptions] returns the projection of the row with
    the options of the map as properties, all but one named [__proto__],
    which assignment to a plain object does not create; for a map without
    that key the options are the map itself. Called with [undefined] for
    the map it throws a TypeError. It has no effect on the state. *)
Theorem rowToObjectWithOptions_spec {S} (row : SlotRow) (s : S) :
  (∀ m, rowToObjectWithOptions row (Some m) s
        = (Return (mkContentSlot (row_id row) (component_type row) (view_id row)
                     (column_start row) (row_start row) (column_end row)
                     (row_end row) (delete "__proto__"%string m)), s))
  ∧ (∀ m, m !! "__proto__"%string = None → flatten m = m)
  ∧ rowToObjectWithOptions row None s = (Throw TypeError, s).
Proof.
  split_and!; [|by intros m Hm; rewrite flatten_eq, delete_id|done].
  intros m. unfold rowToObjectWithOptions, set_options, rowToObject. simpl.
  by rewrite flatten_eq.
Qed.

(** X17. No failure of their own making: when no storage failure is
    scheduled, [setOptionsForContentSlot] and [updateContentSlot] return
    for every slot that is stored, whatever options are stored for it: the
    synchronizer inserts only keys it did not find, so the unique key never
    stops it, and the foreign key finds the slot row. [createContentSlot]
    returns the id the engine assigns unless that id is taken: it inserts
    the slot row before the options, so the foreign key never stops it. *)
Theorem quiet_methods_return (w : World) :
  faults w = [] →
  (∀ conn i D,
     (∃ row, row ∈ contentslots (db w) ∧ row_id row = i) →
     ∃ b w', setOptionsForContentSlot conn i D w = (Return b, w'))
  ∧ (∀ i ct v cs rs ce re D,
       (∃ row, row ∈ contentslots (db w) ∧ row_id row = i) →
       ∃ r, (updateContentSlot i ct v cs rs ce re D w).1 = Return r)
  ∧ (∀ ct v cs rs ce re D,
       existsb (slot_has_id (auto_increment (db w))) (contentslots (db w)) = false →
       (createContentSlot ct v cs rs ce re D w).1
       = Return (auto_increment (db w))).
Proof.
  intros F. split_and!.
  - intros conn i D Hrow%existsb_slot_has_id.
    by apply setOptionsForContentSlot_returns.
  - intros i ct v cs rs ce re D Hrow%existsb_slot_has_id.
    pose proof (updateContentSlot_run i ct v cs rs ce re D w) as H.
    destruct (updateContentSlot i ct v cs rs ce re D w) as [[r|e] w']; [eauto|].
    exfalso. destruct H as [H|[H _]].
    + by apply raised_scheduled, scheduled_quiet in H.
    + by apply refused_stored in H.
  - intros ct v cs rs ce re D Hpk.
    pose proof (createContentSlot_run ct v cs rs ce re D w) as H.
    destruct (createContentSlot ct v cs rs ce re D w) as [[i|e] w'].
    + destruct H as (-> & _). done.
    + destruct H as [H|H]; [done|congruence].
Qed.


(** ** More runs on the sample data *)

Lemma banner_world_slots : unique_slots (contentslots (db banner_world)).
Proof.
  unfold unique_slots. vm_compute.
  apply NoDup_cons. split; [apply not_elem_of_nil|apply NoDup_nil_2].
Defined.

Lemma options_write_read_witness :
  setOptionsForContentSlot 0%nat 1 blue_large banner_world
  = (Return true, (setOptionsForContentSlot 0%nat 1 blue_large banner_world).2)
  ∧ rows_to_map [mkOptionRow 1 "color" "blue"; mkOptionRow 1 "size" "large"]
    = blue_large.
Proof.
  assert (setOptionsForContentSlot 0%nat 1 blue_large banner_world
          = (Return true,
             (setOptionsForContentSlot 0%nat 1 blue_large banner_world).2))
    as Hset by (vm_compute; reflexivity).
  split; [exact Hset|].
  eapply (options_write_read 0%nat 5%nat 1 blue_large _ banner_world _ _ true Hset).
  vm_compute. reflexivity.
Defined.

Lemma batch_read_agrees_witness :
  getOptionsForContentSlots 0%nat [1; 2] banner_world
  = (Return {[ 1 := red; 2 := ∅ ]},
     (getOptionsForContentSlots 0%nat [1; 2] banner_world).2)
  ∧ ({[ 1 := red; 2 := ∅ ]} : gmap Z (gmap string string)) !! 1 = Some red.
Proof.
  assert (getOptionsForContentSlots 0%nat [1; 2] banner_world
          = (Return {[ 1 := red; 2 := ∅ ]},
             (getOptionsForContentSlots 0%nat [1; 2] banner_world).2))
    as Hrun by (vm_compute; reflexivity).
  split; [exact Hrun|].
  destruct (batch_read_agrees 0%nat [1; 2] banner_world _ _ Hrun) as (_ & _ & H).
  apply (H 1 7%nat red (getOptionsForContentSlot 7%nat 1 banner_world).2).
  - apply list_elem_of_here.
  - vm_compute. reflexivity.
Defined.

Lemma setOptionsForContentSlot_again_witness :
  db (setOptionsForContentSlot 1%nat 1 blue_large
        (setOptionsForContentSlot 0%nat 1 blue_large banner_world).2).2
  = db (setOptionsForContentSlot 0%nat 1 blue_large banner_world).2.
Proof.
  assert (setOptionsForContentSlot 0%nat 1 blue_large banner_world
          = (Return true,
             (setOptionsForContentSlot 0%nat 1 blue_large banner_world).2))
    as Hset by (vm_compute; reflexivity).
  pose proof (setOptionsForContentSlot_again 0%nat 1%nat 1 blue_large
                banner_world _ true Hset) as H.
  destruct (setOptionsForContentSlot 1%nat 1 blue_large _) as [[b|e] w2] eqn:E.
  - exact (proj1 H).
  - exfalso. apply (f_equal fst) in E. vm_compute in E. discriminate E.
Defined.

Lemma create_then_read_witness :
  returned [] (getContentSlotsByViewId 4
                 (createContentSlot "Clock" 4 3 1 5 2 proto_red banner_world).2).1
  = [mkContentSlot 2 "Clock" 4 3 1 5 2 red]
  ∧ stored_options (createContentSlot "Clock" 4 3 1 5 2 proto_red banner_world).2 2
    = proto_red.
Proof.
  assert (createContentSlot "Clock" 4 3 1 5 2 proto_red banner_world
          = (Return 2,
             (createContentSlot "Clock" 4 3 1 5 2 proto_red banner_world).2))
    as Hc by (vm_compute; reflexivity).
  assert (getContentSlotsByViewId 4
            (createContentSlot "Clock" 4 3 1 5 2 proto_red banner_world).2
          = (Return (returned [] (getContentSlotsByViewId 4
                       (createContentSlot "Clock" 4 3 1 5 2 proto_red
                          banner_world).2).1),
             (getContentSlotsByViewId 4
                (createContentSlot "Clock" 4 3 1 5 2 proto_red
                   banner_world).2).2))
    as Hg by (vm_compute; reflexivity).
  destruct (create_then_read "Clock" 4 3 1 5 2 proto_red banner_world _ _ 2 _ Hc Hg)
    as [Hobjs Hstored].
  split; [|exact Hstored]. rewrite Hobjs. vm_compute. reflexivity.
Defined.

Lemma create_then_delete_witness :
  returned None (deleteOne 2
                   (createContentSlot "Clock" 1 3 1 5 2 red banner_world).2).1
  = Some 2.
Proof.
  assert (createContentSlot "Clock" 1 3 1 5 2 red banner_world
          = (Return 2, (createContentSlot "Clock" 1 3 1 5 2 red banner_world).2))
    as Hc by (vm_compute; reflexivity).
  assert (deleteOne 2 (createContentSlot "Clock" 1 3 1 5 2 red banner_world).2
          = (Return (returned None (deleteOne 2
                       (createContentSlot "Clock" 1 3 1 5 2 red banner_world).2).1),
             (deleteOne 2
                (createContentSlot "Clock" 1 3 1 5 2 red banner_world).2).2))
    as Hd by (vm_compute; reflexivity).
  exact (proj1 (create_then_delete "Clock" 1 3 1 5 2 red banner_world _ _ 2 _ Hc Hd)).
Defined.

Lemma delete_then_delete_witness :
  returned (Some 0) (deleteOne 1 (deleteOne 1 banner_world).2).1 = None.
Proof.
  assert (deleteOne 1 banner_world = (Return (Some 1), (deleteOne 1 banner_world).2))
    as H1 by (vm_compute; reflexivity).
  assert (deleteOne 1 (deleteOne 1 banner_world).2
          = (Return (returned (Some 0)
                       (deleteOne 1 (deleteOne 1 banner_world).2).1),
             (deleteOne 1 (deleteOne 1 banner_world).2).2))
    as H2 by (vm_compute; reflexivity).
  exact (proj1 (delete_then_delete 1 banner_world _ _ _ _
                  banner_world_slots H1 H2)).
Defined.

Lemma create_then_update_same_witness :
  returned (Some 0)
    (updateContentSlot 2 "Clock" 1 3 1 5 2 red
       (createContentSlot "Clock" 1 3 1 5 2 red banner_world).2).1
  = None.
Proof.
  assert (createContentSlot "Clock" 1 3 1 5 2 red banner_world
          = (Return 2, (createContentSlot "Clock" 1 3 1 5 2 red banner_world).2))
    as Hc by (vm_compute; reflexivity).
  assert (updateContentSlot 2 "Clock" 1 3 1 5 2 red
            (createContentSlot "Clock" 1 3 1 5 2 red banner_world).2
          = (Return (returned (Some 0)
                       (updateContentSlot 2 "Clock" 1 3 1 5 2 red
                          (createContentSlot "Clock" 1 3 1 5 2 red
                             banner_world).2).1),
             (updateContentSlot 2 "Clock" 1 3 1 5 2 red
                (createContentSlot "Clock" 1 3 1 5 2 red banner_world).2).2))
    as Hu by (vm_compute; reflexivity).
  assert (found_rows banner_world = false) as Hfr by (vm_compute; reflexivity).
  exact (create_then_update_same "Clock" 1 3 1 5 2 red banner_world _ _ 2 _
           Hfr banner_world_unique Hc Hu).
Defined.

Lemma createContentSlot_no_rollback_witness :
  (createContentSlot "Clock" 1 3 1 5 2 red half_way_world).1
  = Throw (Error (Some "ER_LOCK_WAIT_TIMEOUT"%string))
  ∧ length (contentslots
              (db (createContentSlot "Clock" 1 3 1 5 2 red half_way_world).2))
    = 2%nat.
Proof.
  destruct (createContentSlot_no_rollback "Clock" 1 3 1 5 2 red half_way_world
              lock_timeout [])
    as (Hr & Hrows & _).
  - vm_compute. reflexivity.
  - vm_compute. reflexivity.
  - split; [rewrite Hr; vm_compute; reflexivity|].
    rewrite Hrows. vm_compute. reflexivity.
Defined.

Lemma quiet_methods_return_witness :
  faults banner_world = []
  ∧ (∃ r, (updateContentSlot 1 "Banner" 2 1 1 3 2 blue_large banner_world).1
          = Return r)
  ∧ (createContentSlot "Clock" 1 3 1 5 2 red banner_world).1 = Return 2.
Proof.
  assert (faults banner_world = []) as F by (vm_compute; reflexivity).
  destruct (quiet_methods_return banner_world F) as (_ & Hu & Hc).
  split_and!; [exact F| |].
  - apply Hu. exists (mkSlotRow 1 1 "Banner" 1 1 3 2).
    split; [vm_compute; apply list_elem_of_here|reflexivity].
  - rewrite (Hc "Clock"%string 1 3 1 5 2 red).
    + vm_compute. reflexivity.
    + vm_compute. reflexivity.
Defined.

Lemma getOptionsForContentSlot_rows_witness :
  returned ∅ (getOptionsForContentSlot 0%nat 1 banner_world).1
    !! "color"%string = Some "red"%string.
Proof.
  pose proof (getOptionsForContentSlot_rows 0%nat 1 banner_world) as H.
  destruct (getOptionsForContentSlot 0%nat 1 banner_world) as [[m|e] w'] eqn:E.
  - destruct H as (_ & _ & _ & _ & H).
    apply (H banner_world_unique (mkOptionRow 1 "color" "red")).
    + vm_compute. apply list_elem_of_here.
    + reflexivity.
  - exfalso. apply (f_equal fst) in E. vm_compute in E. discriminate E.
Defined.

Lemma rowToObjectWithOptions_spec_witness :
  red !! "__proto__"%string = None ∧ flatten red = red.
Proof.
  assert (red !! "__proto__"%string = None) as H by (vm_compute; reflexivity).
  split; [exact H|].
  destruct (rowToObjectWithOptions_spec (mkSlotRow 1 1 "Banner" 1 1 3 2) tt)
    as (_ & Hflat & _).
  exact (Hflat red H).
Defined.
